(** * Pixel Colony: the simulation core, embedded and verified

    A shallow embedding of [src/types.ts], [src/constants.ts],
    [src/utils/gameLogic.ts] and of the request handlers of the application
    component ([handleEntitySelect], [handleAction], [handlePlaceBuilding]).

    Modelling conventions.
    - A JavaScript [number] that only ever holds an integer is a [Z]; the
      arithmetic is exact, as it is in JavaScript while the values stay
      below 2^53 (for the generator: seeds below 2^53 / 9301).
    - [Math.random()] is a stream [rnd : nat -> Q] read through a cursor;
      its contract is a value in [0,1), which a theorem assumes only where
      it says so ([unitDraw]).
      The thresholds ([0.05], [0.2], ...) are the exact decimals.
    - [Date.now()] and [toLocaleTimeString()] are read from the environment
      and are constant during one operation.
    - [updateGameState] and [handleAction] mutate objects they share with
      the snapshot they were given, and the caller drops that snapshot; the
      embedding threads the snapshot being built through a state monad and
      returns its final value.
    - An array is a list. Reading [a[i][j]] when [a[i]] is missing raises
      [TypeError]; reading a missing [a[i][j]] in an existing row yields
      [undefined], here [None]. *)

From Stdlib Require Import ZArith QArith Qround String List Lia.
From stdpp Require Import base list strings pretty.

Local Open Scope string_scope.
Local Open Scope Z_scope.

(** ** types.ts *)

Inductive TileType := GRASS | FOREST | MOUNTAIN | WATER | SAND | FLOOR | WALL.

Inductive EntityType := ET_NPC | ET_MONSTER | ET_BUILDING.

Inductive ResourceType := WOOD | STONE | FOOD | FATE.

Inductive NPCState :=
  IDLE | MOVING | GATHERING | BUILDING | SLEEPING | FIGHTING | CRAFTING | FARMING.

Inductive NPCRole := WORKER | GUARD | EXPLORER | BUILDER | FARMER.

Inductive StructureType := BASE | WAREHOUSE | TOWER | FARM | HOUSE.

Inductive Weather := SUNNY | RAIN | NIGHT.

Inductive LogType := INFO | DANGER | SUCCESS | FUNNY.

#[global] Instance TileType_eq_dec : EqDecision TileType.
Proof. solve_decision. Defined.
#[global] Instance NPCState_eq_dec : EqDecision NPCState.
Proof. solve_decision. Defined.
#[global] Instance NPCRole_eq_dec : EqDecision NPCRole.
Proof. solve_decision. Defined.
#[global] Instance StructureType_eq_dec : EqDecision StructureType.
Proof. solve_decision. Defined.

Record Position := mkPosition { pos_x : Z; pos_y : Z }.

#[global] Instance Position_eq_dec : EqDecision Position.
Proof. solve_decision. Defined.

Record Equipment := mkEquipment { pickaxe : bool; sword : bool }.

Record NPC := mkNPC {
  npc_id : string;
  npc_type : EntityType;
  npc_name : string;
  npc_pos : Position;
  npc_color : string;
  state : NPCState;
  targetPos : option Position;
  health : Z;
  maxHealth : Z;
  role : NPCRole;
  inventory : list (ResourceType * Z);
  equipment : Equipment;
  traits : list string;
  actionTimer : Z;
  thought : string
}.

Record Building := mkBuilding {
  bld_id : string;
  bld_type : EntityType;
  bld_name : string;
  bld_pos : Position;
  bld_color : string;
  structureType : StructureType;
  completed : bool;
  constructionProgress : Z;
  maxConstructionProgress : Z
}.

Record LogEntry := mkLogEntry {
  log_id : string;
  timestamp : string;
  message : string;
  log_type : LogType
}.

(** [Record<ResourceType, number>]: one field per key. *)
Record Resources := mkResources { wood : Z; stone : Z; food : Z; fate : Z }.

(** [TileType[][]] *)
Abbreviation TileMap := (list (list TileType)).

Record GameState := mkGameState {
  colonyName : string;
  seed : Z;
  gs_map : TileMap;
  width : Z;
  height : Z;
  npcs : list NPC;
  buildings : list Building;
  resources : Resources;
  logs : list LogEntry;
  tickCount : Z;
  weather : Weather;
  epoch : Z;
  selectedEntityId : option string
}.

(** Field assignments. *)

Definition getRes (r : Resources) (k : ResourceType) : Z :=
  match k with
  | WOOD => wood r | STONE => stone r | FOOD => food r | FATE => fate r
  end.

Definition setRes (r : Resources) (k : ResourceType) (v : Z) : Resources :=
  match k with
  | WOOD => mkResources v (stone r) (food r) (fate r)
  | STONE => mkResources (wood r) v (food r) (fate r)
  | FOOD => mkResources (wood r) (stone r) v (fate r)
  | FATE => mkResources (wood r) (stone r) (food r) v
  end.

Definition npc_with_pos (n : NPC) (p : Position) : NPC :=
  mkNPC (npc_id n) (npc_type n) (npc_name n) p (npc_color n) (state n)
        (targetPos n) (health n) (maxHealth n) (role n) (inventory n)
        (equipment n) (traits n) (actionTimer n) (thought n).
Definition npc_with_state (n : NPC) (s : NPCState) : NPC :=
  mkNPC (npc_id n) (npc_type n) (npc_name n) (npc_pos n) (npc_color n) s
        (targetPos n) (health n) (maxHealth n) (role n) (inventory n)
        (equipment n) (traits n) (actionTimer n) (thought n).
Definition npc_with_targetPos (n : NPC) (t : option Position) : NPC :=
  mkNPC (npc_id n) (npc_type n) (npc_name n) (npc_pos n) (npc_color n) (state n)
        t (health n) (maxHealth n) (role n) (inventory n)
        (equipment n) (traits n) (actionTimer n) (thought n).
Definition npc_with_health (n : NPC) (h : Z) : NPC :=
  mkNPC (npc_id n) (npc_type n) (npc_name n) (npc_pos n) (npc_color n) (state n)
        (targetPos n) h (maxHealth n) (role n) (inventory n)
        (equipment n) (traits n) (actionTimer n) (thought n).
Definition npc_with_role (n : NPC) (r : NPCRole) : NPC :=
  mkNPC (npc_id n) (npc_type n) (npc_name n) (npc_pos n) (npc_color n) (state n)
        (targetPos n) (health n) (maxHealth n) r (inventory n)
        (equipment n) (traits n) (actionTimer n) (thought n).
Definition npc_with_pickaxe (n : NPC) (b : bool) : NPC :=
  mkNPC (npc_id n) (npc_type n) (npc_name n) (npc_pos n) (npc_color n) (state n)
        (targetPos n) (health n) (maxHealth n) (role n) (inventory n)
        (mkEquipment b (sword (equipment n))) (traits n) (actionTimer n)
        (thought n).
Definition npc_with_actionTimer (n : NPC) (t : Z) : NPC :=
  mkNPC (npc_id n) (npc_type n) (npc_name n) (npc_pos n) (npc_color n) (state n)
        (targetPos n) (health n) (maxHealth n) (role n) (inventory n)
        (equipment n) (traits n) t (thought n).
Definition npc_with_thought (n : NPC) (t : string) : NPC :=
  mkNPC (npc_id n) (npc_type n) (npc_name n) (npc_pos n) (npc_color n) (state n)
        (targetPos n) (health n) (maxHealth n) (role n) (inventory n)
        (equipment n) (traits n) (actionTimer n) t.

Definition bld_with_progress (b : Building) (p : Z) : Building :=
  mkBuilding (bld_id b) (bld_type b) (bld_name b) (bld_pos b) (bld_color b)
             (structureType b) (completed b) p (maxConstructionProgress b).
Definition bld_with_completed (b : Building) (c : bool) : Building :=
  mkBuilding (bld_id b) (bld_type b) (bld_name b) (bld_pos b) (bld_color b)
             (structureType b) c (constructionProgress b)
             (maxConstructionProgress b).

Definition gs_with_map (s : GameState) (m : TileMap) : GameState :=
  mkGameState (colonyName s) (seed s) m (width s) (height s) (npcs s)
              (buildings s) (resources s) (logs s) (tickCount s) (weather s)
              (epoch s) (selectedEntityId s).
Definition gs_with_npcs (s : GameState) (l : list NPC) : GameState :=
  mkGameState (colonyName s) (seed s) (gs_map s) (width s) (height s) l
              (buildings s) (resources s) (logs s) (tickCount s) (weather s)
              (epoch s) (selectedEntityId s).
Definition gs_with_buildings (s : GameState) (l : list Building) : GameState :=
  mkGameState (colonyName s) (seed s) (gs_map s) (width s) (height s) (npcs s)
              l (resources s) (logs s) (tickCount s) (weather s)
              (epoch s) (selectedEntityId s).
Definition gs_with_resources (s : GameState) (r : Resources) : GameState :=
  mkGameState (colonyName s) (seed s) (gs_map s) (width s) (height s) (npcs s)
              (buildings s) r (logs s) (tickCount s) (weather s)
              (epoch s) (selectedEntityId s).
Definition gs_with_logs (s : GameState) (l : list LogEntry) : GameState :=
  mkGameState (colonyName s) (seed s) (gs_map s) (width s) (height s) (npcs s)
              (buildings s) (resources s) l (tickCount s) (weather s)
              (epoch s) (selectedEntityId s).
Definition gs_with_tickCount (s : GameState) (t : Z) : GameState :=
  mkGameState (colonyName s) (seed s) (gs_map s) (width s) (height s) (npcs s)
              (buildings s) (resources s) (logs s) t (weather s)
              (epoch s) (selectedEntityId s).
Definition gs_with_weather (s : GameState) (w : Weather) : GameState :=
  mkGameState (colonyName s) (seed s) (gs_map s) (width s) (height s) (npcs s)
              (buildings s) (resources s) (logs s) (tickCount s) w
              (epoch s) (selectedEntityId s).
Definition gs_with_selectedEntityId (s : GameState) (i : option string)
  : GameState :=
  mkGameState (colonyName s) (seed s) (gs_map s) (width s) (height s) (npcs s)
              (buildings s) (resources s) (logs s) (tickCount s) (weather s)
              (epoch s) i.

(** ** constants.ts *)

Definition MAP_WIDTH : Z := 50.
Definition MAP_HEIGHT : Z := 40.

Definition BUILDING_COLORS (t : StructureType) : string :=
  match t with
  | BASE => "#8f563b"
  | WAREHOUSE => "#5d4037"
  | TOWER => "#4a4a4a"
  | FARM => "#eab308"
  | HOUSE => "#9ca3af"
  end.

Definition NAMES_PREFIX : list string :=
  ["Bim"; "Bom"; "Dar"; "Kor"; "Zan"; "El"; "Fim"; "Gim"; "Huk"; "Tor"].
Definition NAMES_SUFFIX : list string :=
  ["li"; "bo"; "grum"; "rak"; "thos"; "dall"; "rin"; "dun"; "dor"; "min"].

Definition FUNNY_MESSAGES : list string :=
  [ "contemplating the roundness of rocks.";
    "thinking about growing a second beard.";
    "arguing with a squirrel.";
    "trying to invent the sandwich.";
    "forgot where they put the shovel.";
    "singing a song about gold.";
    "worried about the economy.";
    "wondering if clouds taste like wool.";
    "planning a nap." ].

(** [Partial<Record<ResourceType, number>>]: a missing key reads
    [undefined], here [None]. *)
Definition BUILDING_COSTS (t : StructureType) (k : ResourceType) : option Z :=
  match t, k with
  | BASE, _ => None (* Cannot build *)
  | WAREHOUSE, WOOD => Some 50
  | TOWER, WOOD => Some 20
  | TOWER, STONE => Some 50
  | FARM, WOOD => Some 30
  | FARM, STONE => Some 10
  | HOUSE, WOOD => Some 40
  | _, _ => None
  end.

Definition TOOL_COSTS_PICKAXE (k : ResourceType) : option Z :=
  match k with WOOD => Some 10 | _ => None end.

(** ** JavaScript primitives *)

Inductive Exn :=
| TypeError   (* a property of [undefined] was read or written *)
| RangeError  (* [Array(n)] with an invalid length *)
| SparseWrite (* a write past the ends of a row: JavaScript grows the row or
                 adds a property, and the result is no longer a dense array
                 of tiles; the embedding stops there *).

Inductive Res (A : Type) :=
| Ok (a : A)
| Throw (e : Exn).
Arguments Ok {A} a.
Arguments Throw {A} e.

(** The ambient sources a call reads. *)
Record Env := mkEnv {
  rnd : nat -> Q;        (* successive results of Math.random() *)
  now : Z;               (* Date.now() *)
  timeString : string    (* new Date().toLocaleTimeString() *)
}.

(** Computations over a mutable [W], the [Math.random] cursor and [Env]. *)
Definition M (W A : Type) : Type := Env -> W -> nat -> Res (A * W * nat).

Definition ret {W A} (a : A) : M W A := fun _ w c => Ok (a, w, c).

Definition bind {W A B} (m : M W A) (k : A -> M W B) : M W B :=
  fun e w c =>
    match m e w c with
    | Ok (a, w', c') => k a e w' c'
    | Throw x => Throw x
    end.

Notation "'let*' x := m 'in' k" := (bind m (fun x => k))
  (at level 10, x name, m at level 100, k at level 200).
Notation "m ;;; k" := (bind m (fun _ => k))
  (at level 100, k at level 200, right associativity).

Definition throw {W A} (x : Exn) : M W A := fun _ _ _ => Throw x.
Definition get {W} : M W W := fun _ w c => Ok (w, w, c).
Definition put {W} (w : W) : M W unit := fun _ _ c => Ok (tt, w, c).
Definition modify {W} (f : W -> W) : M W unit := fun _ w c => Ok (tt, f w, c).
Definition liftRes {W A} (r : Res A) : M W A :=
  fun _ w c => match r with Ok a => Ok (a, w, c) | Throw x => Throw x end.

(** [Math.random()] *)
Definition random {W} : M W Q := fun e w c => Ok (rnd e c, w, S c).
(** [Date.now()] *)
Definition Date_now {W} : M W Z := fun e w c => Ok (now e, w, c).
(** [new Date().toLocaleTimeString()] *)
Definition toLocaleTimeString {W} : M W string :=
  fun e w c => Ok (timeString e, w, c).

Fixpoint mapM {W A B} (f : A -> M W B) (l : list A) : M W (list B) :=
  match l with
  | [] => ret []
  | a :: l' => let* b := f a in let* bs := mapM f l' in ret (b :: bs)
  end.

(** A [for] loop over the values of [l], the body updating [S]. *)
Fixpoint forRes {A S} (l : list A) (body : A -> S -> Res S) (s : S) : Res S :=
  match l with
  | [] => Ok s
  | a :: l' =>
      match body a s with
      | Ok s' => forRes l' body s'
      | Throw x => Throw x
      end
  end.

Definition Qltb (a b : Q) : bool := negb (Qle_bool b a).
Definition Qgtb (a b : Q) : bool := Qltb b a.

(** [Math.floor(r * n)] *)
Definition floorMul (r : Q) (n : Z) : Z := Qfloor (r * inject_Z n).

(** [Math.sign] on integers. *)
Definition Math_sign (n : Z) : Z := Z.sgn n.

(** [a[i]]: [undefined] outside [0, a.length). *)
Definition index {A} (l : list A) (i : Z) : option A :=
  if i <? 0 then None else l !! Z.to_nat i.

(** [map[y][x]] *)
Definition readTile (m : TileMap) (yy xx : Z) : Res (option TileType) :=
  match index m yy with
  | None => Throw TypeError
  | Some row => Ok (index row xx)
  end.

(** [map[y][x] = t] *)
Definition writeTile (m : TileMap) (yy xx : Z) (t : TileType) : Res TileMap :=
  match index m yy with
  | None => Throw TypeError
  | Some row =>
      if (0 <=? xx) && (xx <? Z.of_nat (length row))
      then Ok (<[Z.to_nat yy := <[Z.to_nat xx := t]> row]> m)
      else Throw SparseWrite
  end.

Definition TileType_eqb (a b : TileType) : bool := bool_decide (a = b).
Definition isTile (o : option TileType) (t : TileType) : bool :=
  match o with Some t' => TileType_eqb t' t | None => false end.

(** ** gameLogic.ts: RNG and helpers *)

(** [PseudoRandom.next]: the new seed and the value returned. JavaScript's
    [%] takes the sign of the dividend, as [Z.rem] does. *)
Definition PseudoRandom_next (s : Z) : Z * Q :=
  let s' := Z.rem (s * 9301 + 49297) 233280 in
  (s', inject_Z s' / inject_Z 233280)%Q.

Definition distance (p1 p2 : Position) : Z :=
  Z.abs (pos_x p1 - pos_x p2) + Z.abs (pos_y p1 - pos_y p2).

(** ** Map generation *)

(** [Array(h).fill(null).map(() => Array(w).fill(TileType.GRASS))] *)
Definition validLength (n : Z) : bool := (0 <=? n) && (n <=? 4294967295).

Definition freshMap (w h : Z) : Res TileMap :=
  if validLength h then
    if (h =? 0) || validLength w
    then Ok (replicate (Z.to_nat h) (replicate (Z.to_nat w) GRASS))
    else Throw RangeError
  else Throw RangeError.

Definition pairRes {A B} (a : A) (r : Res B) : Res (A * B) :=
  match r with Ok b => Ok (a, b) | Throw x => Throw x end.

(** The body of the inner generation loop; the state is the generator's
    seed and the map. *)
Definition generateCell (yy xx : Z) (st : Z * TileMap) : Res (Z * TileMap) :=
  let '(s, m) := st in
  let '(s', rand) := PseudoRandom_next s in
  if Qltb rand 0.05 then pairRes s' (writeTile m yy xx MOUNTAIN)
  else if Qltb rand 0.20 then pairRes s' (writeTile m yy xx FOREST)
  else if Qltb rand 0.25 then pairRes s' (writeTile m yy xx WATER)
  else if Qltb rand 0.27 then pairRes s' (writeTile m yy xx SAND)
  else Ok (s', m).

(** [for (let i = lo; i <= hi; i++)] visits [seqZ lo (hi - lo + 1)]. *)
Definition clearCenter (cx cy : Z) (m : TileMap) : Res TileMap :=
  forRes (seqZ (cy - 3) 7)
    (fun yy => forRes (seqZ (cx - 3) 7) (fun xx m' => writeTile m' yy xx GRASS))
    m.

Definition generateMap (w h : Z) (sd : Z) : Res TileMap :=
  match freshMap w h with
  | Throw x => Throw x
  | Ok m0 =>
      match forRes (seqZ 0 h)
              (fun yy => forRes (seqZ 0 w) (fun xx => generateCell yy xx))
              (sd, m0) with
      | Throw x => Throw x
      | Ok (_, m1) =>
          (* Ensure center is clear for base *)
          let cx := w `div` 2 in
          let cy := h `div` 2 in
          clearCenter cx cy m1
      end
  end.

(** ** Genesis *)

Definition StructureType_toString (t : StructureType) : string :=
  match t with
  | BASE => "BASE" | WAREHOUSE => "WAREHOUSE" | TOWER => "TOWER"
  | FARM => "FARM" | HOUSE => "HOUSE"
  end.

Definition Weather_toString (w : Weather) : string :=
  match w with SUNNY => "SUNNY" | RAIN => "RAIN" | NIGHT => "NIGHT" end.

Definition NPCRole_toString (r : NPCRole) : string :=
  match r with
  | WORKER => "WORKER" | GUARD => "GUARD" | EXPLORER => "EXPLORER"
  | BUILDER => "BUILDER" | FARMER => "FARMER"
  end.

(** [a[Math.floor(Math.random() * a.length)]] in a string template: a miss
    prints as "undefined". *)
Definition pick (a : list string) (r : Q) : string :=
  default "undefined" (index a (floorMul r (Z.of_nat (length a)))).

Definition generateName {W} : M W string :=
  let* r1 := random in
  let* r2 := random in
  ret (pick NAMES_PREFIX r1 +:+ pick NAMES_SUFFIX r2).

(** [c + (Math.random() > 0.5 ? 1 : -1) * Math.floor(Math.random() * 3)] *)
Definition spawnCoord {W} (c : Z) : M W Z :=
  let* r1 := random in
  let* r2 := random in
  ret (c + (if Qgtb r1 0.5 then 1 else -1) * floorMul r2 3).

Definition spawnNpc {W} (i : Z) : M W NPC :=
  let* t := Date_now in
  let* nm := generateName in
  let* px := spawnCoord (MAP_WIDTH `div` 2) in
  let* py := spawnCoord (MAP_HEIGHT `div` 2) in
  ret {| npc_id := "npc_" +:+ pretty t +:+ "_" +:+ pretty i;
         npc_type := ET_NPC;
         npc_name := nm;
         npc_pos := mkPosition px py;
         npc_color := "#ef4444";
         state := IDLE;
         targetPos := None;
         health := 100;
         maxHealth := 100;
         role := if i =? 0 then GUARD else WORKER;
         inventory := [];
         equipment := mkEquipment false false;
         traits := ["Hardy"];
         actionTimer := 0;
         thought := "New world!" |}.

Definition base_01 : Building :=
  {| bld_id := "base_01";
     bld_type := ET_BUILDING;
     bld_name := "Town Hall";
     bld_pos := mkPosition (MAP_WIDTH `div` 2) (MAP_HEIGHT `div` 2);
     bld_color := BUILDING_COLORS BASE;
     structureType := BASE;
     completed := true;
     constructionProgress := 100;
     maxConstructionProgress := 100 |}.

Definition createInitialState (name : string) (seedInput : option Z)
  : M unit GameState :=
  let* sd := match seedInput with
             | Some sd => ret sd
             | None => let* r := random in ret (floorMul r 1000000)
             end in
  let* map := liftRes (generateMap MAP_WIDTH MAP_HEIGHT sd) in
  (* Spawn 5 Dwarves *)
  let* ns := mapM spawnNpc (seqZ 0 5) in
  let* ts := toLocaleTimeString in
  ret {| colonyName := name;
         seed := sd;
         gs_map := map;
         width := MAP_WIDTH;
         height := MAP_HEIGHT;
         npcs := ns;
         buildings := [base_01];
         resources := mkResources 0 0 20 0;
         logs := [mkLogEntry "init" ts "The expedition has arrived." INFO];
         tickCount := 0;
         weather := SUNNY;
         epoch := 1;
         selectedEntityId := None |}.

(** Genesis as a caller sees it: the state, or the exception. *)
Definition genesis (e : Env) (name : string) (seedInput : option Z)
  : Res GameState :=
  match createInitialState name seedInput e tt 0%nat with
  | Ok (s, _, _) => Ok s
  | Throw x => Throw x
  end.

(** ** Construction *)

(** [cost[k] && ...]: [undefined] and [0] are falsy. *)
Definition truthy (o : option Z) : bool :=
  match o with Some n => negb (n =? 0) | None => false end.

(** [cost[k]!] where [cost[k]] was found truthy. *)
Definition amount (o : option Z) : Z := default 0 o.

Definition atPos (xx yy : Z) (b : Building) : bool :=
  (pos_x (bld_pos b) =? xx) && (pos_y (bld_pos b) =? yy).

(** [placeBuilding]: [Ok None] is the [null] it returns on a rejection. *)
Definition placeBuilding (e : Env) (st : GameState) (xx yy : Z)
    (type : StructureType) : Res (option GameState) :=
  (* Check bounds *)
  if (xx <? 0) || (xx >=? MAP_WIDTH) || (yy <? 0) || (yy >=? MAP_HEIGHT)
  then Ok None
  (* Check collision with other buildings *)
  else if existsb (atPos xx yy) (buildings st) then Ok None
  else
    (* Check map terrain (cannot build on water or mountain) *)
    match readTile (gs_map st) yy xx with
    | Throw x => Throw x
    | Ok tile =>
        if isTile tile WATER || isTile tile MOUNTAIN then Ok None
        else
          (* Check Cost *)
          let cost := BUILDING_COSTS type in
          let res := resources st in
          if truthy (cost WOOD) && (wood res <? amount (cost WOOD))
          then Ok None
          else if truthy (cost STONE) && (stone res <? amount (cost STONE))
          then Ok None
          else if truthy (cost FOOD) && (food res <? amount (cost FOOD))
          then Ok None
          else
            (* Deduct resources *)
            let res1 := if truthy (cost WOOD)
                        then setRes res WOOD (wood res - amount (cost WOOD))
                        else res in
            let res2 := if truthy (cost STONE)
                        then setRes res1 STONE
                               (stone res1 - amount (cost STONE))
                        else res1 in
            let newBuilding :=
              {| bld_id := "bld_" +:+ pretty (now e);
                 bld_type := ET_BUILDING;
                 bld_name := if bool_decide (type = FARM)
                             then "Wheat Farm" else "House";
                 bld_pos := mkPosition xx yy;
                 bld_color := BUILDING_COLORS type;
                 structureType := type;
                 completed := false;
                 constructionProgress := 0;
                 maxConstructionProgress := 100 |} in
            let entry :=
              mkLogEntry ("build_" +:+ pretty (now e)) (timeString e)
                ("Construction started: " +:+ StructureType_toString type)
                INFO in
            Ok (Some
              (gs_with_logs
                 (gs_with_buildings (gs_with_resources st res2)
                    (buildings st ++ [newBuilding]))
                 (entry :: logs st)))
    end.

(** The caller, [handlePlaceBuilding]: the game state and the build mode it
    leaves. A rejection only raises an alert. *)
Definition handlePlaceBuilding (e : Env) (gameState : option GameState)
    (buildMode : option StructureType) (xx yy : Z)
  : Res (option GameState * option StructureType) :=
  match gameState, buildMode with
  | Some gs, Some kind =>
      match placeBuilding e gs xx yy kind with
      | Throw x => Throw x
      | Ok (Some nextState) => Ok (Some nextState, None)
      | Ok None => Ok (gameState, buildMode)
      end
  | _, _ => Ok (gameState, buildMode)
  end.

(** ** Game loop helpers *)

(** [minDst], which starts at [Infinity]. *)
Inductive Dist := Infinity | Finite (d : Z).

Definition ltDist (d : Z) (m : Dist) : bool :=
  match m with Infinity => true | Finite m' => d <? m' end.

Definition rowLength (m : TileMap) : Z :=
  match m with [] => 0 | r :: _ => Z.of_nat (length r) end.

Definition scanCell (m : TileMap) (start : Position) (type : TileType)
    (yy xx : Z) (acc : option Position * Dist) : option Position * Dist :=
  let '(nearest, minDst) := acc in
  match index m yy with
  | None => acc
  | Some row =>
      if isTile (index row xx) type then
        let d := distance start (mkPosition xx yy) in
        if ltDist d minDst then (Some (mkPosition xx yy), Finite d) else acc
      else acc
  end.

Definition findNearestTile (m : TileMap) (start : Position) (type : TileType)
  : option Position :=
  fst (fold_left
         (fun acc yy =>
            fold_left (fun acc' xx => scanCell m start type yy xx acc')
                      (seqZ 0 (rowLength m)) acc)
         (seqZ 0 (Z.of_nat (length m)))
         (None, Infinity)).

Definition scanEntity (start : Position) (filter : option (Building -> bool))
    (acc : option Building * Dist) (b : Building) : option Building * Dist :=
  let '(nearest, minDst) := acc in
  let skip := match filter with Some f => negb (f b) | None => false end in
  if skip then acc
  else
    let d := distance start (bld_pos b) in
    if ltDist d minDst then (Some b, Finite d) else acc.

(** [findNearestEntity], which the game only calls on the buildings. *)
Definition findNearestEntity (entities : list Building) (start : Position)
    (filter : option (Building -> bool)) : option Building :=
  fst (fold_left (scanEntity start filter) entities (None, Infinity)).

Definition moveTowards (npc : NPC) (target : Position) : Position :=
  let dx := pos_x target - pos_x (npc_pos npc) in
  let dy := pos_y target - pos_y (npc_pos npc) in
  if Z.abs dx >? Z.abs dy
  then mkPosition (pos_x (npc_pos npc) + Math_sign dx) (pos_y (npc_pos npc))
  else mkPosition (pos_x (npc_pos npc)) (pos_y (npc_pos npc) + Math_sign dy).

(** ** One tick *)

Definition G := M GameState.

(** [newState.logs.unshift(entry)] *)
Definition unshiftLog (id msg : string) (ty : LogType) : G unit :=
  let* ts := toLocaleTimeString in
  modify (fun s => gs_with_logs s (mkLogEntry id ts msg ty :: logs s)).

(** [newState.resources[k] += n] *)
Definition addResource (k : ResourceType) (n : Z) : G unit :=
  modify (fun s =>
            gs_with_resources s (setRes (resources s) k
                                        (getRes (resources s) k + n))).

(** The wander target, written out at each of its four uses in the source:
    [Math.max(0, Math.min(MAP_WIDTH-1, pos.x + Math.floor(Math.random() * 5) - 2))]
    and the same for [y]. *)
Definition wander (p : Position) : G Position :=
  let* r1 := random in
  let* r2 := random in
  ret (mkPosition
         (Z.max 0 (Z.min (MAP_WIDTH - 1) (pos_x p + floorMul r1 5 - 2)))
         (Z.max 0 (Z.min (MAP_HEIGHT - 1) (pos_y p + floorMul r2 5 - 2)))).

Definition goTo (npc : NPC) (t : Position) : NPC :=
  npc_with_state (npc_with_targetPos npc (Some t)) MOVING.

Definition isBase (b : Building) : bool := bool_decide (structureType b = BASE).
Definition isFarm (b : Building) : bool := bool_decide (structureType b = FARM).
Definition isRole (npc : NPC) (r : NPCRole) : bool := bool_decide (role npc = r).

(** [b.pos.x === updatedNpc.targetPos?.x && b.pos.y === updatedNpc.targetPos?.y] *)
Definition atTarget (t : option Position) (b : Building) : bool :=
  match t with
  | Some p => atPos (pos_x p) (pos_y p) b
  | None => false
  end.

Definition idleWorker (updatedNpc : NPC) : G NPC :=
  let* newState := get in
  (* Decision making *)
  let* decision :=
    if negb (pickaxe (equipment updatedNpc)) then
      if wood (resources newState) >=? amount (TOOL_COSTS_PICKAXE WOOD)
      then ret (FOREST, true)
      else ret (FOREST, false)
    else
      let* r := random in
      ret (if Qgtb r 0.5 then FOREST else MOUNTAIN, false) in
  let '(targetType, needsCrafting) := decision in
  if needsCrafting : bool then
    (* Go to base *)
    match find isBase (buildings newState) with
    | Some base =>
        ret (npc_with_thought (goTo updatedNpc (bld_pos base))
                              "Need a pickaxe...")
    | None => ret updatedNpc
    end
  else
    match findNearestTile (gs_map newState) (npc_pos updatedNpc) targetType with
    | Some target => ret (goTo updatedNpc target)
    | None =>
        (* Wander *)
        let* t := wander (npc_pos updatedNpc) in
        ret (goTo updatedNpc t)
    end.

Definition idleNpc (npc0 : NPC) : G NPC :=
  let* r := random in
  let* updatedNpc :=
    if Qltb r 0.05 then
      let* r' := random in
      ret (npc_with_thought npc0 (pick FUNNY_MESSAGES r'))
    else ret npc0 in
  let* newState := get in
  match role updatedNpc with
  | BUILDER =>
      match findNearestEntity (buildings newState) (npc_pos updatedNpc)
              (Some (fun e => negb (completed e))) with
      | Some site =>
          ret (npc_with_thought (goTo updatedNpc (bld_pos site))
                                "Time to build.")
      | None =>
          (* Wander if no jobs *)
          let* t := wander (npc_pos updatedNpc) in
          ret (goTo updatedNpc t)
      end
  | FARMER =>
      match findNearestEntity (buildings newState) (npc_pos updatedNpc)
              (Some (fun e => isFarm e && completed e)) with
      | Some farm =>
          ret (npc_with_thought (goTo updatedNpc (bld_pos farm))
                                "Tending the crops.")
      | None =>
          let* t := wander (npc_pos updatedNpc) in
          ret (goTo updatedNpc t)
      end
  | WORKER => idleWorker updatedNpc
  | _ =>
      (* Guard or others just wander *)
      let* r2 := random in
      if Qltb r2 0.2 then
        let* t := wander (npc_pos updatedNpc) in
        ret (goTo updatedNpc t)
      else ret updatedNpc
  end.

(** Arrival: the distance to the target is at most 1. *)
Definition arriveNpc (updatedNpc : NPC) (target : Position) : G NPC :=
  let* newState := get in
  (* Check if at Base for Crafting *)
  let base := find (fun b => isBase b && atTarget (Some target) b)
                   (buildings newState) in
  if bool_decide (is_Some base) && negb (pickaxe (equipment updatedNpc))
     && isRole updatedNpc WORKER
     && (wood (resources newState) >=? amount (TOOL_COSTS_PICKAXE WOOD))
  then
    ret (npc_with_thought
           (npc_with_actionTimer (npc_with_state updatedNpc CRAFTING) 30)
           "Crafting pickaxe...")
  else
    (* Check if at Construction Site *)
    let building := find (atTarget (Some target)) (buildings newState) in
    let incomplete := match building with
                      | Some b => negb (completed b)
                      | None => false
                      end in
    let doneFarm := match building with
                    | Some b => isFarm b && completed b
                    | None => false
                    end in
    if incomplete && isRole updatedNpc BUILDER then
      ret (npc_with_actionTimer (npc_with_state updatedNpc BUILDING) 10)
    (* Check if at Farm *)
    else if doneFarm && isRole updatedNpc FARMER then
      ret (npc_with_actionTimer (npc_with_state updatedNpc FARMING) 50)
    else
      (* Check Resource Tile *)
      let* tile := liftRes (readTile (gs_map newState)
                                     (pos_y target) (pos_x target)) in
      if isTile tile FOREST || isTile tile MOUNTAIN then
        ret (npc_with_actionTimer (npc_with_state updatedNpc GATHERING) 20)
      else
        ret (npc_with_targetPos (npc_with_state updatedNpc IDLE) None).

Definition movingNpc (updatedNpc : NPC) : G NPC :=
  match targetPos updatedNpc with
  | Some target =>
      if distance (npc_pos updatedNpc) target <=? 1
      then arriveNpc updatedNpc target
      else ret (npc_with_pos updatedNpc (moveTowards updatedNpc target))
  | None => ret (npc_with_state updatedNpc IDLE)
  end.

Definition craftingNpc (npc0 : NPC) : G NPC :=
  let updatedNpc := npc_with_actionTimer npc0 (actionTimer npc0 - 1) in
  if actionTimer updatedNpc <=? 0 then
    let* newState := get in
    let* crafted :=
      if wood (resources newState) >=? amount (TOOL_COSTS_PICKAXE WOOD) then
        addResource WOOD (- amount (TOOL_COSTS_PICKAXE WOOD)) ;;;
        let* t := Date_now in
        unshiftLog ("crf_" +:+ pretty t)
                   (npc_name updatedNpc +:+ " crafted a Pickaxe.") SUCCESS ;;;
        ret (npc_with_pickaxe updatedNpc true)
      else ret updatedNpc in
    ret (npc_with_state crafted IDLE)
  else ret updatedNpc.

(** [array.findIndex(p)]: [None] is the [-1] of a miss. *)
Fixpoint findIndex {A} (p : A -> bool) (l : list A) : option nat :=
  match l with
  | [] => None
  | a :: l' => if p a then Some 0%nat else S <$> findIndex p l'
  end.

Definition buildingNpc (npc0 : NPC) : G NPC :=
  let updatedNpc := npc_with_actionTimer npc0 (actionTimer npc0 - 1) in
  if actionTimer updatedNpc <=? 0 then
    let* newState := get in
    (* Find the building again (reference might change in array map) *)
    let buildingIndex :=
      findIndex (atTarget (targetPos updatedNpc)) (buildings newState) in
    (match buildingIndex with
     | Some i =>
         match buildings newState !! i with
         | Some b0 =>
             let b := bld_with_progress b0 (constructionProgress b0 + 10) in
             let* b' :=
               if constructionProgress b >=? maxConstructionProgress b then
                 let* t := Date_now in
                 unshiftLog ("bld_fin_" +:+ pretty t)
                            (bld_name b +:+ " construction complete!")
                            SUCCESS ;;;
                 ret (bld_with_completed b true)
               else ret b in
             modify (fun s => gs_with_buildings s (<[i := b']> (buildings s)))
         | None => ret tt
         end
     | None => ret tt
     end) ;;;
    let* newState' := get in
    let updatedNpc' := npc_with_actionTimer updatedNpc 10 in
    (* If complete, stop *)
    let finished := match buildingIndex with
                    | Some i => match buildings newState' !! i with
                                | Some b => completed b
                                | None => false
                                end
                    | None => false
                    end in
    if finished then ret (npc_with_state updatedNpc' IDLE)
    else ret updatedNpc'
  else ret updatedNpc.

Definition farmingNpc (npc0 : NPC) : G NPC :=
  let updatedNpc := npc_with_actionTimer npc0 (actionTimer npc0 - 1) in
  if actionTimer updatedNpc <=? 0 then
    addResource FOOD 5 ;;;
    let updatedNpc' := npc_with_actionTimer updatedNpc 100 in
    (* Small chance to finish *)
    let* r := random in
    if Qltb r 0.2 then ret (npc_with_state updatedNpc' IDLE)
    else ret updatedNpc'
  else ret updatedNpc.

(** [newState.map[y][x] = t] *)
Definition setTile (p : Position) (t : TileType) : G unit :=
  let* s := get in
  let* m := liftRes (writeTile (gs_map s) (pos_y p) (pos_x p) t) in
  put (gs_with_map s m).

(** The end of a gathering: [inr npc] is the early [return] of the
    pickaxe-less miner, [inl (gathered, secondary)] goes on to the log. *)
Definition gatherYield (updatedNpc : NPC) (target : Position)
  : G (string * string + NPC) :=
  let* newState := get in
  let* tile := liftRes (readTile (gs_map newState)
                                 (pos_y target) (pos_x target)) in
  if isTile tile FOREST then
    addResource WOOD 5 ;;;
    (* Chance to find an apple *)
    let* r1 := random in
    let* secondary :=
      if Qltb r1 0.25
      then addResource FOOD 3 ;;; ret " & an apple"
      else ret "" in
    (* Chance to destroy tree *)
    let* r2 := random in
    (if Qgtb r2 0.3 then setTile target GRASS else ret tt) ;;;
    ret (inl ("wood", secondary))
  else if isTile tile MOUNTAIN then
    if pickaxe (equipment updatedNpc) then
      addResource STONE 5 ;;;
      (* Mining rarely destroys mountains *)
      let* r := random in
      (if Qgtb r 0.8 then setTile target FLOOR else ret tt) ;;;
      ret (inl ("stone", ""))
    else
      ret (inr (npc_with_state
                  (npc_with_thought updatedNpc "Need a pickaxe!") IDLE))
  else ret (inl ("", "")).

Definition gatheringNpc (npc0 : NPC) : G NPC :=
  let updatedNpc := npc_with_actionTimer npc0 (actionTimer npc0 - 1) in
  if actionTimer updatedNpc <=? 0 then
    (* Finished Gathering *)
    let finish := npc_with_targetPos (npc_with_state updatedNpc IDLE) None in
    match targetPos updatedNpc with
    | Some target =>
        let* y := gatherYield updatedNpc target in
        match y with
        | inr early => ret early
        | inl (gathered, secondary) =>
            let* r := random in
            (if Qltb r 0.1 || negb (String.eqb secondary "") then
               let* t := Date_now in
               unshiftLog ("log_" +:+ pretty t +:+ "_" +:+ npc_id updatedNpc)
                 (npc_name updatedNpc +:+ " gathered " +:+ gathered
                    +:+ secondary +:+ ".")
                 SUCCESS
             else ret tt) ;;;
            ret finish
        end
    | None => ret finish
    end
  else ret updatedNpc.

(** The callback of [newState.npcs.map]. *)
Definition updateNpc (npc : NPC) : G NPC :=
  match state npc with
  | IDLE => idleNpc npc
  | MOVING => movingNpc npc
  | CRAFTING => craftingNpc npc
  | BUILDING => buildingNpc npc
  | FARMING => farmingNpc npc
  | GATHERING => gatheringNpc npc
  | SLEEPING | FIGHTING => ret npc
  end.

Definition nextWeather (w : Weather) : Weather :=
  match w with SUNNY => RAIN | RAIN => NIGHT | NIGHT => SUNNY end.

Definition updateWeather : G unit :=
  let* s := get in
  if Z.rem (tickCount s) 500 =? 0 then
    let w := nextWeather (weather s) in
    let* t := Date_now in
    let* ts := toLocaleTimeString in
    put (gs_with_logs (gs_with_weather s w)
           (take 50 (mkLogEntry ("weather_" +:+ pretty t) ts
                       ("Weather changed to " +:+ Weather_toString w) INFO
                     :: logs s)))
  else ret tt.

Definition randomEvents : G unit :=
  let* r := random in
  if Qltb r 0.005 then
    (* 0.5% chance per tick *)
    let* eventType := random in
    let* t := Date_now in
    if Qltb eventType 0.5 then
      unshiftLog ("evt_" +:+ pretty t)
                 "A mysterious bird flew over the colony." INFO
    else
      modify (fun s =>
                gs_with_resources s
                  (setRes (resources s) FOOD
                          (Z.max 0 (food (resources s) - 2)))) ;;;
      unshiftLog ("evt_" +:+ pretty t) "Rats ate some food supplies!" DANGER
  else ret tt.

Definition updateGameStateM : G unit :=
  modify (fun s => gs_with_tickCount s (tickCount s + 1)) ;;;
  (* Update Time/Weather *)
  updateWeather ;;;
  (* Passive Fate Gain *)
  let* s := get in
  (if Z.rem (tickCount s) 100 =? 0 then addResource FATE 1 else ret tt) ;;;
  (* Update NPCs *)
  let* s1 := get in
  let* ns := mapM updateNpc (npcs s1) in
  modify (fun s => gs_with_npcs s ns) ;;;
  (* Random Events (Rare) *)
  randomEvents.

Definition updateGameState (e : Env) (st : GameState) : Res GameState :=
  match updateGameStateM e st 0%nat with
  | Ok (_, s, _) => Ok s
  | Throw x => Throw x
  end.

(** ** Requests between ticks *)

Definition handleEntitySelect (st : GameState) (id : option string)
  : GameState :=
  gs_with_selectedEntityId st id.

(** [newState.selectedEntityId] as a condition: [null] and the empty string
    are falsy. *)
Definition selected (s : GameState) : option string :=
  match selectedEntityId s with
  | Some id => if String.eqb id "" then None else Some id
  | None => None
  end.

Definition roles : list NPCRole := [WORKER; BUILDER; FARMER; GUARD].

(** [roles.indexOf(r)] *)
Definition indexOfRole (r : NPCRole) : Z :=
  match findIndex (fun r' => bool_decide (r' = r)) roles with
  | Some i => Z.of_nat i
  | None => -1
  end.

(** [newState.npcs[i] = f(newState.npcs[i])], for the in-place writes. *)
Definition alterNpc (i : nat) (f : NPC -> NPC) : G unit :=
  modify (fun s => gs_with_npcs s (alter f i (npcs s))).

Definition bless : G unit :=
  let* newState := get in
  match selected newState with
  | Some sel =>
      if fate (resources newState) >=? 5 then
        match findIndex (fun n => String.eqb (npc_id n) sel)
                        (npcs newState) with
        | Some npcIndex =>
            addResource FATE (-5) ;;;
            alterNpc npcIndex
              (fun n => npc_with_thought
                          (npc_with_health n
                             (Z.min (maxHealth n) (health n + 50)))
                          "I feel divine power!") ;;;
            let* s := get in
            let* t := Date_now in
            unshiftLog ("bless_" +:+ pretty t)
              ("You blessed "
                 +:+ default "" (npc_name <$> npcs s !! npcIndex) +:+ ".")
              SUCCESS
        | None => ret tt
        end
      else ret tt
  | None => ret tt
  end.

Definition cycleRole : G unit :=
  let* newState := get in
  match selected newState with
  | Some sel =>
      match findIndex (fun n => String.eqb (npc_id n) sel) (npcs newState) with
      | Some npcIndex =>
          match npcs newState !! npcIndex with
          | Some n =>
              let currentRoleIndex := indexOfRole (role n) in
              match index roles (Z.rem (currentRoleIndex + 1)
                                       (Z.of_nat (length roles))) with
              | Some nextRole =>
                  alterNpc npcIndex
                    (fun n => npc_with_targetPos
                                (npc_with_state (npc_with_role n nextRole) IDLE)
                                None) ;;;
                  let* t := Date_now in
                  unshiftLog ("role_" +:+ pretty t)
                    (npc_name n +:+ " is now a "
                       +:+ NPCRole_toString nextRole +:+ ".")
                    INFO
              | None => ret tt
              end
          | None => ret tt
          end
      | None => ret tt
      end
  | None => ret tt
  end.

Definition handleActionM (action : string) : G unit :=
  if String.eqb action "BLESS" then bless
  else if String.eqb action "CYCLE_ROLE" then cycleRole
  else ret tt.

Definition handleAction (e : Env) (action : string) (prev : GameState)
  : Res GameState :=
  match handleActionM action e prev 0%nat with
  | Ok (_, s, _) => Ok s
  | Throw x => Throw x
  end.

(** ** Histories *)

(** What the application does to the state it owns: a tick, a construction
    request, a selection (how Bless and Cycle Role are told their agent),
    an action. *)
Inductive Request :=
| Tick (e : Env)
| Place (e : Env) (xx yy : Z) (kind : StructureType)
| Select (id : option string)
| Action (e : Env) (action : string).

(** The state a request leaves; [None] when the call threw or, for a
    construction request, was rejected (the application then keeps the state
    it had). *)
Definition serve (r : Request) (s : GameState) : option GameState :=
  match r with
  | Tick e =>
      match updateGameState e s with Ok s' => Some s' | Throw _ => None end
  | Place e xx yy kind =>
      match placeBuilding e s xx yy kind with
      | Ok (Some s') => Some s'
      | _ => None
      end
  | Select id => Some (handleEntitySelect s id)
  | Action e a =>
      match handleAction e a s with Ok s' => Some s' | Throw _ => None end
  end.

Fixpoint run (rs : list Request) (s : GameState) : option GameState :=
  match rs with
  | [] => Some s
  | r :: rs' => match serve r s with Some s' => run rs' s' | None => None end
  end.

Inductive reachable : GameState -> Prop :=
| reach_genesis e name seedInput s :
    genesis e name seedInput = Ok s -> reachable s
| reach_serve r s s' :
    reachable s -> serve r s = Some s' -> reachable s'.

(** ** Predicates of the statements *)

(** A [w] by [h] grid: [h] rows of [w] tiles. *)
Definition grid (w h : Z) (m : TileMap) : Prop :=
  Z.of_nat (length m) = h /\ Forall (fun r => Z.of_nat (length r) = w) m.

Definition grassAt (m : TileMap) (yy xx : Z) : Prop :=
  readTile m yy xx = Ok (Some GRASS).

Definition resources_nonneg (r : Resources) : Prop :=
  0 <= wood r /\ 0 <= stone r /\ 0 <= food r /\ 0 <= fate r.

(** The half of the building invariant that the code keeps. *)
Definition building_ok (b : Building) : Prop :=
  0 <= constructionProgress b /\
  (completed b = true <-> maxConstructionProgress b <= constructionProgress b).

(** A computation keeps [I]: it holds after every run that returns. *)
Definition keeps {A} (I : GameState -> Prop) (m : G A) : Prop :=
  forall e s c a s' c', I s -> m e s c = Ok (a, s', c') -> I s'.

(** A computation only reads the state. *)
Definition readonly {A} (m : G A) : Prop :=
  forall e s c a s' c', m e s c = Ok (a, s', c') -> s' = s.

(** An environment whose [Math.random()] always returns [r]. *)
Definition constEnv (r : Q) : Env := mkEnv (fun _ => r) 0 "".

(** What every reachable state satisfies. *)
Definition Inv (s : GameState) : Prop :=
  resources_nonneg (resources s) /\ Forall building_ok (buildings s).

(** The rejection causes of a construction request, in the order the
    specification lists them. *)
Definition outOfBounds (xx yy : Z) : Prop :=
  xx < 0 \/ MAP_WIDTH <= xx \/ yy < 0 \/ MAP_HEIGHT <= yy.

Definition occupied (s : GameState) (xx yy : Z) : Prop :=
  exists b, b ∈ buildings s /\ bld_pos b = mkPosition xx yy.

Definition unbuildable (tile : option TileType) : Prop :=
  tile = Some WATER \/ tile = Some MOUNTAIN.

Definition insufficient (s : GameState) (kind : StructureType) : Prop :=
  exists k c, BUILDING_COSTS kind k = Some c /\ getRes (resources s) k < c.

(** The centre block of a [w] by [h] grid. *)
Definition inCenter (w h xx yy : Z) : Prop :=
  w `div` 2 - 3 <= xx <= w `div` 2 + 3 /\ h `div` 2 - 3 <= yy <= h `div` 2 + 3.

(** A small state for the examples: no agent, no building. *)
Definition tinyState (m : TileMap) (r : Resources) : GameState :=
  {| colonyName := "tiny"; seed := 0; gs_map := m; width := MAP_WIDTH;
     height := MAP_HEIGHT; npcs := []; buildings := []; resources := r;
     logs := []; tickCount := 0; weather := SUNNY; epoch := 1;
     selectedEntityId := None |}.

Definition withNpcs (s : GameState) (l : list NPC) : GameState :=
  gs_with_npcs s l.

(** An agent for the examples. *)
Definition agent (p : Position) (st : NPCState) (t : option Position)
    (r : NPCRole) (timer : Z) : NPC :=
  {| npc_id := "npc_0_0"; npc_type := ET_NPC; npc_name := "Bimli";
     npc_pos := p; npc_color := "#ef4444"; state := st; targetPos := t;
     health := 100; maxHealth := 100; role := r; inventory := [];
     equipment := mkEquipment false false; traits := ["Hardy"];
     actionTimer := timer; thought := "" |}.

(** C6 as the specification words it: a Moving agent further than 1 from
    its target, with [|dx| = |dy|], steps along the x-axis. *)
Definition ties_step_along_x : Prop :=
  forall e s s' i npc t,
    updateGameState e s = Ok s' ->
    npcs s !! i = Some npc ->
    state npc = MOVING -> targetPos npc = Some t ->
    1 < distance (npc_pos npc) t ->
    Z.abs (pos_x t - pos_x (npc_pos npc))
    = Z.abs (pos_y t - pos_y (npc_pos npc)) ->
    exists npc',
      npcs s' !! i = Some npc' /\
      npc_pos npc' =
        mkPosition (pos_x (npc_pos npc)
                    + Z.sgn (pos_x t - pos_x (npc_pos npc)))
                   (pos_y (npc_pos npc)).

(** The cells [findNearestTile] visits: every row, and in each the columns
    of row 0 (all the columns when the map is a grid). *)
Definition scanned (m : TileMap) (xx yy : Z) : Prop :=
  0 <= yy < Z.of_nat (length m) /\ 0 <= xx < rowLength m.

Definition tileIs (m : TileMap) (type : TileType) (xx yy : Z) : Prop :=
  readTile m yy xx = Ok (Some type).

(** What the scan has found after the cells [V]. *)
Definition nearestSoFar (m : TileMap) (start : Position) (type : TileType)
    (V : Z -> Z -> Prop) (acc : option Position * Dist) : Prop :=
  match acc with
  | (None, Infinity) => forall xx yy, V xx yy -> ~ tileIs m type xx yy
  | (Some p, Finite d) =>
      d = distance start p /\ V (pos_x p) (pos_y p) /\
      tileIs m type (pos_x p) (pos_y p) /\
      forall xx yy, V xx yy -> tileIs m type xx yy ->
                    d <= distance start (mkPosition xx yy)
  | _ => False
  end.

(** C7 as the specification words it, on the states a colony can reach. *)
Definition worker_always_targets_forest : Prop :=
  forall e s s' i npc,
    reachable s -> updateGameState e s = Ok s' ->
    npcs s !! i = Some npc ->
    state npc = IDLE -> role npc = WORKER ->
    pickaxe (equipment npc) = false -> wood (resources s) < 10 ->
    exists npc' t,
      npcs s' !! i = Some npc' /\ targetPos npc' = Some t /\
      tileIs (gs_map s') FOREST (pos_x t) (pos_y t) /\
      (forall b, b ∈ buildings s' -> structureType b = BASE ->
                 t <> bld_pos b).

(** A value of [Math.random()]: in [0, 1). *)
Definition unitDraw (r : Q) : Prop := (0 <= r)%Q /\ (r < 1)%Q.

(** The position in the stream of draws after the thought of an Idle agent
    whose callback starts at [c]: one draw decides whether the agent has a
    thought, and a second one then picks it. *)
Definition afterThought (e : Env) (c : nat) : nat :=
  if Qltb (rnd e c) 0.05 then S (S c) else S c.

(** [updateGameState] up to the turn of the agent at index [i]: the clock,
    the weather and the passive Fate gain, then the callback of [npcs.map]
    on the agents before [i], in the order of the list. *)
Definition beforeTurn (i : nat) : G unit :=
  modify (fun s => gs_with_tickCount s (tickCount s + 1)) ;;;
  (* Update Time/Weather *)
  updateWeather ;;;
  (* Passive Fate Gain *)
  let* s := get in
  (if Z.rem (tickCount s) 100 =? 0 then addResource FATE 1 else ret tt) ;;;
  (* Update NPCs *)
  let* s1 := get in
  mapM updateNpc (take i (npcs s1)) ;;;
  ret tt.

(** The state that the callback of agent [i] runs on in a tick of [st], and
    its position in the stream of draws. *)
Definition turnOf (e : Env) (st : GameState) (i : nat)
  : Res (GameState * nat) :=
  match beforeTurn i e st 0%nat with
  | Ok (_, s, c) => Ok (s, c)
  | Throw x => Throw x
  end.

(** ** Histories of the examples *)

(** A colony from genesis on: the state after the requests [rs]. *)
Definition history (e : Env) (name : string) (seedInput : option Z)
    (rs : list Request) : option GameState :=
  match genesis e name seedInput with
  | Ok g => run rs g
  | Throw _ => None
  end.

(** Two builders on one site. The colony of seed 42 plays 400 ticks (every
    draw is 0.6), by when it holds 90 Wood; a House is placed next to the
    Base, two agents are made Builders, and 80 more ticks pass. *)
Definition twoBuilders : list Request :=
  (replicate 400 (Tick (constEnv 0.6))
   ++ [Place (constEnv 0.6) 24 20 HOUSE;
       Select (Some "npc_0_1"); Action (constEnv 0.6) "CYCLE_ROLE";
       Select (Some "npc_0_2"); Action (constEnv 0.6) "CYCLE_ROLE"]
   ++ replicate 80 (Tick (constEnv 0.6)))%list.

(** Fifty role changes of one agent, right after genesis. *)
Definition fiftyRoleChanges : list Request :=
  Select (Some "npc_0_0") :: replicate 50 (Action (constEnv 0.6) "CYCLE_ROLE").

(** A gatherer ahead of an Idle Worker. The colony of seed 42 plays 47 ticks
    (every draw is 0.6), by when it holds 5 Wood and the agents at indices
    1, 3 and 4 are about to finish a gathering; four role changes bring the
    agent at index 2 back to Worker, Idle. *)
Definition gathererBeforeWorker : list Request :=
  (replicate 47 (Tick (constEnv 0.6))
   ++ Select (Some "npc_0_2")
      :: replicate 4 (Action (constEnv 0.6) "CYCLE_ROLE"))%list.

(** The genesis Base: it heads the building list, at the centre of the map,
    on a tile that is not Forest. *)
Definition BaseInv (s : GameState) : Prop :=
  (exists b rest, buildings s = b :: rest /\ structureType b = BASE /\
                  bld_pos b = mkPosition 25 20)
  /\ ~ tileIs (gs_map s) FOREST 25 20.

(** ** Well-formed worlds *)

Definition inBounds (p : Position) : Prop :=
  0 <= pos_x p < MAP_WIDTH /\ 0 <= pos_y p < MAP_HEIGHT.

(** The terrain is the full grid and every building stands on it. *)
Definition World_ok (s : GameState) : Prop :=
  grid MAP_WIDTH MAP_HEIGHT (gs_map s)
  /\ Forall (fun b => inBounds (bld_pos b)) (buildings s).

(** An agent's target, when it has one, is a cell of the grid. *)
Definition Agent_ok (n : NPC) : Prop :=
  forall t, targetPos n = Some t -> inBounds t.

Definition Colony_ok (s : GameState) : Prop :=
  World_ok s /\ Forall Agent_ok (npcs s).

(** * Proofs *)

(** ** Arrays *)

Lemma index_Some {A} (l : list A) (i : Z) (a : A) :
  index l i = Some a <-> 0 <= i /\ l !! Z.to_nat i = Some a.
Proof.
  unfold index. destruct (Z.ltb_spec i 0); split; intros H'.
  - discriminate.
  - lia.
  - split; [lia | exact H'].
  - tauto.
Qed.

Lemma index_in_range {A} (l : list A) (i : Z) :
  0 <= i < Z.of_nat (length l) -> exists a, index l i = Some a.
Proof.
  intros Hi. destruct (lookup_lt_is_Some_2 l (Z.to_nat i)) as [a Ha]; [lia|].
  exists a. apply index_Some. split; [lia | exact Ha].
Qed.

Lemma grid_row w h m yy row :
  grid w h m -> index m yy = Some row -> Z.of_nat (length row) = w.
Proof.
  intros [_ Hr] Hi. apply index_Some in Hi as [_ Hi].
  rewrite Forall_forall in Hr. apply Hr.
  eapply list_elem_of_lookup_2; eauto.
Qed.

Lemma writeTile_ok w h m yy xx t :
  grid w h m -> 0 <= yy < h -> 0 <= xx < w ->
  exists m', writeTile m yy xx t = Ok m'.
Proof.
  intros Hg Hy Hx. unfold writeTile.
  destruct (index_in_range m yy) as [row Hrow]; [destruct Hg; lia|].
  rewrite Hrow. rewrite (grid_row _ _ _ _ _ Hg Hrow).
  replace ((0 <=? xx) && (xx <? w)) with true by lia. eauto.
Qed.

Lemma writeTile_grid w h m yy xx t m' :
  grid w h m -> writeTile m yy xx t = Ok m' -> grid w h m'.
Proof.
  intros [Hl Hr] Hw. unfold writeTile in Hw.
  destruct (index m yy) as [row|] eqn:Hrow; [|discriminate].
  destruct ((0 <=? xx) && (xx <? Z.of_nat (length row))); [|discriminate].
  injection Hw as <-. split.
  - rewrite length_insert. exact Hl.
  - apply index_Some in Hrow as [_ Hrow].
    apply Forall_insert; [exact Hr|]. rewrite length_insert.
    rewrite Forall_forall in Hr. apply Hr.
    eapply list_elem_of_lookup_2; eauto.
Qed.

(** What a write leaves in every cell. *)
Lemma readTile_writeTile m yy xx t m' y' x' :
  writeTile m yy xx t = Ok m' ->
  readTile m' y' x' =
    if bool_decide (y' = yy /\ x' = xx) then Ok (Some t) else readTile m y' x'.
Proof.
  intros Hw. unfold writeTile in Hw.
  destruct (index m yy) as [row|] eqn:Hrow; [|discriminate].
  destruct (andb _ _) eqn:Hx; [|discriminate].
  injection Hw as <-.
  apply index_Some in Hrow as [Hy0 Hrow].
  assert (Hlt : (Z.to_nat yy < length m)%nat) by (eapply lookup_lt_Some; eauto).
  unfold readTile, index.
  destruct (Z.ltb_spec y' 0) as [Hy'|Hy'].
  { rewrite bool_decide_eq_false_2 by lia. reflexivity. }
  destruct (decide (y' = yy)) as [->|Hne].
  - rewrite list_lookup_insert_eq by exact Hlt. rewrite Hrow.
    destruct (Z.ltb_spec x' 0) as [Hx'|Hx'].
    { rewrite bool_decide_eq_false_2 by lia. reflexivity. }
    destruct (decide (x' = xx)) as [->|Hnx].
    + rewrite bool_decide_eq_true_2 by tauto.
      rewrite list_lookup_insert_eq by lia. reflexivity.
    + rewrite bool_decide_eq_false_2 by tauto.
      rewrite list_lookup_insert_ne by lia. reflexivity.
  - rewrite bool_decide_eq_false_2 by tauto.
    rewrite list_lookup_insert_ne by lia. reflexivity.
Qed.

(** ** Loops *)

Lemma forRes_ok {A S} (I : S -> Prop) (l : list A) (body : A -> S -> Res S) :
  (forall a s, In a l -> I s -> exists s', body a s = Ok s' /\ I s') ->
  forall s, I s -> exists s', forRes l body s = Ok s' /\ I s'.
Proof.
  induction l as [|a l IH]; intros Hb s Hs; simpl.
  - eauto.
  - destruct (Hb a s) as (s1 & -> & Hs1); [now left | exact Hs |].
    apply IH; [|exact Hs1]. intros; apply Hb; [now right | assumption].
Qed.

Lemma forRes_inv {A S} (I : S -> Prop) (l : list A) (body : A -> S -> Res S) :
  (forall a s s', In a l -> I s -> body a s = Ok s' -> I s') ->
  forall s s', I s -> forRes l body s = Ok s' -> I s'.
Proof.
  induction l as [|a l IH]; intros Hb s s' Hs; simpl.
  - now intros [= <-].
  - destruct (body a s) as [s1|] eqn:H1; [|discriminate].
    apply IH; [|eapply Hb; eauto; now left].
    intros; eapply Hb; eauto; now right.
Qed.

(** Every element of the list has had its turn: what its turn establishes,
    and later turns keep, holds at the end. *)
Lemma forRes_each {A S} (Q : A -> S -> Prop) (l : list A)
    (body : A -> S -> Res S) :
  (forall a s s', In a l -> body a s = Ok s' -> Q a s') ->
  (forall a a' s s', In a' l -> Q a s -> body a' s = Ok s' -> Q a s') ->
  forall s s', forRes l body s = Ok s' -> forall a, In a l -> Q a s'.
Proof.
  induction l as [|b l IH]; intros Hest Hkeep s s' Hrun a Ha; simpl in *.
  - contradiction.
  - destruct (body b s) as [s1|] eqn:H1; [|discriminate].
    assert (Hk : forall s2 s3, Q a s2 -> forRes l body s2 = Ok s3 -> Q a s3).
    { intros s2 s3 Hq. apply (forRes_inv (Q a)); [|exact Hq].
      intros a' s4 s5 Hin Hq' Hb.
      apply (Hkeep a a' s4 s5); [now right | exact Hq' | exact Hb]. }
    destruct Ha as [<-|Ha].
    + eapply Hk; [|exact Hrun]. apply (Hest _ s s1); [now left | exact H1].
    + eapply (IH (fun a s s' Hin => Hest a s s' (or_intror Hin))
                 (fun a a' s s' Hin => Hkeep a a' s s' (or_intror Hin)));
        eauto.
Qed.

Lemma In_seqZ (a m n : Z) : In a (seqZ m n) <-> m <= a < m + n.
Proof. rewrite <- list_elem_of_In. apply elem_of_seqZ. Qed.

(** ** Map generation *)

Lemma freshMap_grid w h :
  0 <= w <= 4294967295 -> 0 <= h <= 4294967295 ->
  exists m, freshMap w h = Ok m /\ grid w h m.
Proof.
  intros Hw Hh. unfold freshMap, validLength.
  replace ((0 <=? h) && (h <=? 4294967295)) with true by lia.
  replace ((0 <=? w) && (w <=? 4294967295)) with true by lia.
  rewrite orb_true_r. eexists; split; [reflexivity|]. split.
  - rewrite length_replicate. lia.
  - apply Forall_replicate. rewrite length_replicate. lia.
Qed.

Lemma generateCell_ok w h yy xx s m :
  grid w h m -> 0 <= yy < h -> 0 <= xx < w ->
  exists s' m', generateCell yy xx (s, m) = Ok (s', m') /\ grid w h m'.
Proof.
  intros Hg Hy Hx. unfold generateCell.
  destruct (PseudoRandom_next s) as [s' rand].
  assert (Hw : forall t, exists m', pairRes s' (writeTile m yy xx t) = Ok (s', m')
                                    /\ grid w h m').
  { intros t. destruct (writeTile_ok w h m yy xx t Hg Hy Hx) as [m' Hm'].
    exists m'. rewrite Hm'. split; [reflexivity|].
    eapply writeTile_grid; eauto. }
  repeat match goal with
         | |- context [if ?b then _ else _] => destruct b
         end; try (destruct (Hw MOUNTAIN) as (m' & ? & ?); now eauto);
    try (destruct (Hw FOREST) as (m' & ? & ?); now eauto);
    try (destruct (Hw WATER) as (m' & ? & ?); now eauto);
    try (destruct (Hw SAND) as (m' & ? & ?); now eauto).
Qed.

Lemma generation_ok w h sd m0 :
  grid w h m0 ->
  exists s' m1,
    forRes (seqZ 0 h)
      (fun yy => forRes (seqZ 0 w) (fun xx => generateCell yy xx)) (sd, m0)
    = Ok (s', m1) /\ grid w h m1.
Proof.
  intros Hg.
  destruct (forRes_ok (fun st : Z * TileMap => grid w h (snd st)) (seqZ 0 h)
              (fun yy => forRes (seqZ 0 w) (fun xx => generateCell yy xx)))
    with (s := (sd, m0)) as ([s' m1] & Hrun & Hg1); [|exact Hg|eauto].
  intros yy st Hyy Hst. apply In_seqZ in Hyy.
  apply (forRes_ok (fun st : Z * TileMap => grid w h (snd st))); [|exact Hst].
  intros xx [s m] Hxx Hm. apply In_seqZ in Hxx.
  destruct (generateCell_ok w h yy xx s m Hm) as (s1 & m1 & -> & Hg1);
    [lia | lia |]. exists (s1, m1). split; [reflexivity | exact Hg1].
Qed.

Lemma writeTile_GRASS_keeps m yy xx m' y0 x0 :
  writeTile m yy xx GRASS = Ok m' -> grassAt m y0 x0 -> grassAt m' y0 x0.
Proof.
  intros Hw Hg. unfold grassAt.
  rewrite (readTile_writeTile _ _ _ _ _ y0 x0 Hw).
  case_bool_decide; [reflexivity | exact Hg].
Qed.

Lemma clearCenter_ok w h cx cy m :
  grid w h m -> 0 <= cx - 3 -> cx + 3 < w -> 0 <= cy - 3 -> cy + 3 < h ->
  exists m', clearCenter cx cy m = Ok m' /\ grid w h m'.
Proof.
  intros Hg Hx0 Hx1 Hy0 Hy1. unfold clearCenter.
  apply (forRes_ok (grid w h)); [|exact Hg].
  intros yy m1 Hyy Hm1. apply In_seqZ in Hyy.
  apply (forRes_ok (grid w h)); [|exact Hm1].
  intros xx m2 Hxx Hm2. apply In_seqZ in Hxx.
  destruct (writeTile_ok w h m2 yy xx GRASS Hm2) as [m3 Hm3]; [lia|lia|].
  exists m3. split; [exact Hm3 | eapply writeTile_grid; eauto].
Qed.

Lemma clearRow_grass cx y1 m1 m2 :
  forRes (seqZ (cx - 3) 7) (fun x1 m3 => writeTile m3 y1 x1 GRASS) m1 = Ok m2 ->
  (forall y0 x0, grassAt m1 y0 x0 -> grassAt m2 y0 x0)
  /\ (forall xx, cx - 3 <= xx <= cx + 3 -> grassAt m2 y1 xx).
Proof.
  intros Hr. split.
  - intros y0 x0 Hg. revert Hr.
    apply (forRes_inv (fun m => grassAt m y0 x0)); [|exact Hg].
    intros a s s' _ Hs Hw. eapply writeTile_GRASS_keeps; eauto.
  - intros xx Hx.
    apply (forRes_each (fun x1 m => grassAt m y1 x1)) with (a := xx) in Hr.
    + exact Hr.
    + intros a s s' _ Hw. unfold grassAt.
      rewrite (readTile_writeTile _ _ _ _ _ y1 a Hw).
      rewrite bool_decide_eq_true_2 by tauto. reflexivity.
    + intros a a' s s' _ Hq Hw. eapply writeTile_GRASS_keeps; eauto.
    + apply In_seqZ. lia.
Qed.

Lemma clearCenter_grass cx cy m m' yy xx :
  clearCenter cx cy m = Ok m' ->
  cy - 3 <= yy <= cy + 3 -> cx - 3 <= xx <= cx + 3 ->
  grassAt m' yy xx.
Proof.
  intros Hrun Hy Hx. unfold clearCenter in Hrun.
  apply (forRes_each (fun y1 m => grassAt m y1 xx)) with (a := yy) in Hrun.
  - exact Hrun.
  - intros a s s' _ Hr. apply (clearRow_grass cx a s s' Hr). exact Hx.
  - intros a a' s s' _ Hq Hr. apply (clearRow_grass cx a' s s' Hr). exact Hq.
  - apply In_seqZ. lia.
Qed.

Lemma generateMap_ok w h sd :
  7 <= w <= 4294967295 -> 7 <= h <= 4294967295 ->
  exists m, generateMap w h sd = Ok m /\ grid w h m /\
    forall xx yy, w `div` 2 - 3 <= xx <= w `div` 2 + 3 ->
                  h `div` 2 - 3 <= yy <= h `div` 2 + 3 ->
                  readTile m yy xx = Ok (Some GRASS).
Proof.
  intros Hw Hh. unfold generateMap.
  destruct (freshMap_grid w h) as (m0 & -> & Hg0); [lia|lia|].
  destruct (generation_ok w h sd m0 Hg0) as (s' & m1 & -> & Hg1).
  assert (Hcx : 3 <= w `div` 2 /\ w `div` 2 + 3 < w).
  { split; [apply Z.div_le_lower_bound; lia|].
    pose proof (Z.div_mod w 2 ltac:(lia)).
    pose proof (Z.mod_pos_bound w 2 ltac:(lia)). lia. }
  assert (Hcy : 3 <= h `div` 2 /\ h `div` 2 + 3 < h).
  { split; [apply Z.div_le_lower_bound; lia|].
    pose proof (Z.div_mod h 2 ltac:(lia)).
    pose proof (Z.mod_pos_bound h 2 ltac:(lia)). lia. }
  destruct (clearCenter_ok w h (w `div` 2) (h `div` 2) m1 Hg1)
    as (m2 & Hm2 & Hg2); [lia..|].
  exists m2. split; [exact Hm2|]. split; [exact Hg2|].
  intros xx yy Hx Hy. eapply clearCenter_grass; eauto.
Qed.

(** ** Runs of a computation *)

Lemma bind_Ok {W A B} (m : M W A) (k : A -> M W B) e w c r :
  bind m k e w c = Ok r ->
  exists a w1 c1, m e w c = Ok (a, w1, c1) /\ k a e w1 c1 = Ok r.
Proof.
  unfold bind. destruct (m e w c) as [[[a w1] c1]|x]; [|discriminate].
  intros H. exists a, w1, c1. split; [reflexivity | exact H].
Qed.

Lemma bind_run {W A B} (m : M W A) (k : A -> M W B) e w c a w1 c1 :
  m e w c = Ok (a, w1, c1) -> bind m k e w c = k a e w1 c1.
Proof. unfold bind. now intros ->. Qed.

Lemma liftRes_Ok {W A} (r : Res A) e (w : W) c a w' c' :
  liftRes r e w c = Ok (a, w', c') -> r = Ok a /\ w' = w /\ c' = c.
Proof. unfold liftRes. destruct r; [|discriminate]. now intros [= -> -> ->]. Qed.

(** Take a run [H : m e s c = Ok r] apart, from the head of [m]: a bind is
    split, a primitive is resolved, a conditional is decided. *)
Ltac run_step H :=
  lazymatch type of H with
  | bind _ _ _ _ _ = Ok _ =>
      let a := fresh "a" in let w := fresh "s" in let c := fresh "c" in
      let H1 := fresh "Hrun" in
      apply bind_Ok in H as (a & w & c & H1 & H);
      cbv beta in H; run_step H1; run_step H
  | ret _ _ _ _ = Ok _ => unfold ret in H; simplify_eq
  | get _ _ _ = Ok _ => unfold get in H; simplify_eq
  | put _ _ _ _ = Ok _ => unfold put in H; simplify_eq
  | modify _ _ _ _ = Ok _ => unfold modify in H; simplify_eq
  | random _ _ _ = Ok _ => unfold random in H; simplify_eq
  | Date_now _ _ _ = Ok _ => unfold Date_now in H; simplify_eq
  | toLocaleTimeString _ _ _ = Ok _ =>
      unfold toLocaleTimeString in H; simplify_eq
  | throw _ _ _ _ = Ok _ => discriminate H
  | liftRes _ _ _ _ = Ok _ =>
      let H1 := fresh "Hres" in
      apply liftRes_Ok in H as (H1 & ? & ?); simplify_eq
  | unshiftLog _ _ _ _ _ _ = Ok _ => unfold unshiftLog in H; run_step H
  | addResource _ _ _ _ _ = Ok _ => unfold addResource in H; run_step H
  | setTile _ _ _ _ _ = Ok _ => unfold setTile in H; run_step H
  | alterNpc _ _ _ _ _ = Ok _ => unfold alterNpc in H; run_step H
  | (if ?b then _ else _) _ _ _ = Ok _ =>
      let Hb := fresh "Hcond" in destruct b eqn:Hb; run_step H
  | (match ?x with _ => _ end) _ _ _ = Ok _ =>
      let Hx := fresh "Hcase" in destruct x eqn:Hx; run_step H
  | _ => idtac
  end.

Ltac run_inv H := run_step H.

Lemma readonly_keeps {A} (I : GameState -> Prop) (m : G A) :
  readonly m -> keeps I m.
Proof. intros Hm e s c a s' c' Hs Hrun. now rewrite (Hm _ _ _ _ _ _ Hrun). Qed.

Lemma keeps_bind {A B} (I : GameState -> Prop) (m : G A) (k : A -> G B) :
  keeps I m -> (forall a, keeps I (k a)) -> keeps I (bind m k).
Proof.
  intros Hm Hk e s c b s' c' Hs Hrun.
  apply bind_Ok in Hrun as (a & s1 & c1 & H1 & H2).
  eapply Hk; [|exact H2]. eapply Hm; eassumption.
Qed.

Lemma keeps_ret {A} (I : GameState -> Prop) (a : A) : keeps I (ret a).
Proof. intros e s c b s' c' Hs Hrun. run_inv Hrun. exact Hs. Qed.

Lemma keeps_get (I : GameState -> Prop) : keeps I get.
Proof. intros e s c b s' c' Hs Hrun. run_inv Hrun. exact Hs. Qed.

Lemma keeps_modify (I : GameState -> Prop) (f : GameState -> GameState) :
  (forall s, I s -> I (f s)) -> keeps I (modify f).
Proof. intros Hf e s c b s' c' Hs Hrun. run_inv Hrun. now apply Hf. Qed.

Lemma keeps_mapM {A B} (I : GameState -> Prop) (f : A -> G B) (l : list A) :
  (forall a, keeps I (f a)) -> keeps I (mapM f l).
Proof.
  intros Hf. induction l as [|a l IH]; intros e s c bs s' c' Hs Hrun.
  - simpl in Hrun. run_inv Hrun. exact Hs.
  - simpl in Hrun. run_inv Hrun.
    eapply IH; [|eassumption]. eapply Hf; eassumption.
Qed.

(** The [i]-th result of [array.map] is the callback's, run on the [i]-th
    element in the state its predecessors left. *)
Lemma mapM_lookup {W A B} (f : A -> M W B) (l : list A) e w c bs w' c' i a :
  mapM f l e w c = Ok (bs, w', c') -> l !! i = Some a ->
  exists w1 c1 b w2 c2,
    f a e w1 c1 = Ok (b, w2, c2) /\ bs !! i = Some b.
Proof.
  revert w c bs i. induction l as [|a0 l IH]; intros w c bs i Hrun Hi.
  - discriminate.
  - simpl in Hrun. apply bind_Ok in Hrun as (b0 & w1 & c1 & H0 & Hrun).
    apply bind_Ok in Hrun as (bs' & w2 & c2 & H1 & Hrun).
    unfold ret in Hrun. simplify_eq. destruct i as [|i]; simpl in *.
    + simplify_eq. eauto 10.
    + eapply IH; eauto.
Qed.

Lemma mapM_lookup_keeps {A B} (I : GameState -> Prop) (f : A -> G B)
    (l : list A) e w c bs w' c' i a :
  (forall a, keeps I (f a)) -> I w ->
  mapM f l e w c = Ok (bs, w', c') -> l !! i = Some a ->
  exists w1 c1 b w2 c2,
    I w1 /\ f a e w1 c1 = Ok (b, w2, c2) /\ bs !! i = Some b.
Proof.
  intros Hf. revert w c bs i.
  induction l as [|a0 l IH]; intros w c bs i Hw Hrun Hi.
  - discriminate.
  - simpl in Hrun. apply bind_Ok in Hrun as (b0 & w1 & c1 & H0 & Hrun).
    apply bind_Ok in Hrun as (bs' & w2 & c2 & H1 & Hrun).
    unfold ret in Hrun. simplify_eq. destruct i as [|i]; simpl in *.
    + simplify_eq. eauto 10.
    + eapply IH; [|exact H1|exact Hi]. eapply Hf; eassumption.
Qed.

Lemma keeps_and {A} (I J : GameState -> Prop) (m : G A) :
  keeps I m -> keeps J m -> keeps (fun s => I s /\ J s) m.
Proof.
  intros HI HJ e s c a s' c' [Hi Hj] Hrun.
  split; [eapply HI | eapply HJ]; eassumption.
Qed.

Lemma mapM_Forall {W A B} (P : B -> Prop) (f : A -> M W B) (l : list A)
    e w c bs w' c' :
  (forall a e w c b w' c', f a e w c = Ok (b, w', c') -> P b) ->
  mapM f l e w c = Ok (bs, w', c') -> Forall P bs.
Proof.
  intros Hf. revert w c bs. induction l as [|a0 l IH]; intros w c bs Hrun.
  - simpl in Hrun. unfold ret in Hrun. simplify_eq. constructor.
  - simpl in Hrun. apply bind_Ok in Hrun as (b0 & w1 & c1 & H0 & Hrun).
    apply bind_Ok in Hrun as (bs' & w2 & c2 & H1 & Hrun).
    unfold ret in Hrun. simplify_eq. constructor; eauto.
Qed.

Lemma mapM_length {W A B} (f : A -> M W B) (l : list A) e w c bs w' c' :
  mapM f l e w c = Ok (bs, w', c') -> length bs = length l.
Proof.
  revert w c bs. induction l as [|a0 l IH]; intros w c bs Hrun; simpl in Hrun.
  - unfold ret in Hrun. now simplify_eq.
  - apply bind_Ok in Hrun as (b0 & w1 & c1 & H0 & Hrun).
    apply bind_Ok in Hrun as (bs' & w2 & c2 & H1 & Hrun).
    unfold ret in Hrun. simplify_eq. simpl. f_equal. eapply IH; eauto.
Qed.

(** ** The nearest tile *)

Lemma scanCell_spec m start type V yy xx acc :
  nearestSoFar m start type V acc ->
  0 <= yy < Z.of_nat (length m) ->
  nearestSoFar m start type
    (fun x' y' => V x' y' \/ (x' = xx /\ y' = yy))
    (scanCell m start type yy xx acc).
Proof.
  intros Hacc Hy. unfold scanCell.
  destruct acc as [nearest minDst].
  destruct (index_in_range m yy Hy) as [row Hrow]. rewrite Hrow.
  assert (Hcell : forall t, tileIs m t xx yy <-> index row xx = Some t).
  { intros t. unfold tileIs, readTile. rewrite Hrow.
    split; [now intros [= ->] | now intros ->]. }
  destruct (isTile (index row xx) type) eqn:Htile.
  - assert (Hhit : tileIs m type xx yy).
    { apply Hcell. unfold isTile, TileType_eqb in Htile.
      destruct (index row xx) as [t|]; [|discriminate].
      apply bool_decide_eq_true_1 in Htile. now subst. }
    destruct nearest as [p|], minDst as [|d]; simpl in *; try contradiction.
    + destruct Hacc as (Hd & Hv & Ht & Hmin).
      destruct (Z.ltb_spec (distance start (mkPosition xx yy)) d) as [Hlt|Hge].
      * split; [reflexivity|]. split; [tauto|]. split; [exact Hhit|].
        intros x' y' [Hv'|[-> ->]] Ht'; [|lia].
        specialize (Hmin x' y' Hv' Ht'). lia.
      * split; [exact Hd|]. split; [tauto|]. split; [exact Ht|].
        intros x' y' [Hv'|[-> ->]] Ht'; [now apply Hmin | lia].
    + split; [reflexivity|]. split; [tauto|]. split; [exact Hhit|].
      intros x' y' [Hv|[-> ->]] Ht; [exfalso; eapply Hacc; eauto | lia].
  - assert (Hmiss : ~ tileIs m type xx yy).
    { intros Ht. apply Hcell in Ht. rewrite Ht in Htile.
      unfold isTile, TileType_eqb in Htile.
      now rewrite bool_decide_eq_true_2 in Htile. }
    destruct nearest as [p|], minDst as [|d]; simpl in *; try contradiction.
    + destruct Hacc as (Hd & Hv & Ht & Hmin).
      split; [exact Hd|]. split; [tauto|]. split; [exact Ht|].
      intros x' y' [Hv'|[-> ->]] Ht'; [now apply Hmin | contradiction].
    + intros x' y' [Hv'|[-> ->]]; [now apply Hacc | exact Hmiss].
Qed.

Lemma nearestSoFar_ext m start type V V' acc :
  (forall xx yy, V xx yy <-> V' xx yy) ->
  nearestSoFar m start type V acc -> nearestSoFar m start type V' acc.
Proof.
  intros HV. destruct acc as [[p|] [|d]]; simpl; try tauto.
  - intros (Hd & Hv & Ht & Hmin).
    split; [exact Hd|]. split; [now apply HV|]. split; [exact Ht|].
    intros xx yy Hv' Ht'. apply Hmin; [now apply HV | exact Ht'].
  - intros H xx yy Hv. apply H. now apply HV.
Qed.

Lemma scanRow_spec m start type yy xs V acc :
  nearestSoFar m start type V acc ->
  0 <= yy < Z.of_nat (length m) ->
  nearestSoFar m start type
    (fun x' y' => V x' y' \/ (In x' xs /\ y' = yy))
    (fold_left (fun acc' xx => scanCell m start type yy xx acc') xs acc).
Proof.
  intros Hacc Hy. revert V acc Hacc.
  induction xs as [|xx xs IH]; intros V acc Hacc; simpl.
  - eapply nearestSoFar_ext; [|exact Hacc]. simpl. tauto.
  - eapply nearestSoFar_ext;
      [|apply IH, scanCell_spec; [exact Hacc | exact Hy]].
    simpl. intros x' y'. split; intros H; [|intuition (subst; auto)].
    destruct H as [[H|[-> ->]]|[H ->]]; auto.
Qed.

Lemma scanRows_spec m start type ys xs V acc :
  nearestSoFar m start type V acc ->
  (forall yy, In yy ys -> 0 <= yy < Z.of_nat (length m)) ->
  nearestSoFar m start type
    (fun x' y' => V x' y' \/ (In x' xs /\ In y' ys))
    (fold_left
       (fun acc yy =>
          fold_left (fun acc' xx => scanCell m start type yy xx acc') xs acc)
       ys acc).
Proof.
  revert V acc. induction ys as [|yy ys IH]; intros V acc Hacc Hys; simpl.
  - eapply nearestSoFar_ext; [|exact Hacc]. simpl. tauto.
  - eapply nearestSoFar_ext;
      [|apply IH; [apply scanRow_spec; [exact Hacc | apply Hys; now left]
                  | intros; apply Hys; now right]].
    simpl. intros x' y'. split; intros H; [|intuition (subst; auto)].
    destruct H as [[H|[H ->]]|[H H']]; auto.
Qed.

(** [findNearestTile] returns a tile of the kind asked for, among the
    scanned cells one nearest to [start]; it returns nothing only when no
    scanned cell has that kind. *)
Lemma findNearestTile_spec m start type :
  match findNearestTile m start type with
  | Some p =>
      scanned m (pos_x p) (pos_y p) /\ tileIs m type (pos_x p) (pos_y p) /\
      forall xx yy, scanned m xx yy -> tileIs m type xx yy ->
                    distance start p <= distance start (mkPosition xx yy)
  | None => forall xx yy, scanned m xx yy -> ~ tileIs m type xx yy
  end.
Proof.
  unfold findNearestTile.
  pose proof (scanRows_spec m start type (seqZ 0 (Z.of_nat (length m)))
                (seqZ 0 (rowLength m)) (fun _ _ => False) (None, Infinity))
    as H.
  simpl in H. specialize (H ltac:(tauto)).
  specialize (H ltac:(intros yy Hy; apply In_seqZ in Hy; lia)).
  destruct (fold_left _ _ _) as [[p|] [|d]]; simpl in *; try contradiction.
  - destruct H as (Hd & [[]|[Hx Hy]] & Ht & Hmin).
    apply In_seqZ in Hx, Hy. split; [unfold scanned; lia|].
    split; [exact Ht|]. intros xx yy [Hyy Hxx] Ht'. rewrite <- Hd.
    apply Hmin; [|exact Ht']. right. rewrite !In_seqZ. lia.
  - intros xx yy [Hyy Hxx]. apply H. right. rewrite !In_seqZ. lia.
Qed.


(** ** The invariant of the ledger and of the buildings *)

Ltac keeps_start H :=
  let HI := fresh "HI" in
  intros ? ? ? ? ? ? HI H.

Ltac inv_simpl :=
  unfold Inv, resources_nonneg in *; simpl in *.

Lemma readonly_wander p : readonly (wander p).
Proof. intros e s c a s' c' H. unfold wander in H. now run_inv H. Qed.

Lemma readonly_idleWorker n : readonly (idleWorker n).
Proof.
  intros e s c a s' c' H. unfold idleWorker in H. run_inv H;
    try reflexivity; try (eapply readonly_wander; eassumption).
    all: try (apply readonly_wander in Hrun; congruence).
Qed.

Lemma readonly_idleNpc n : readonly (idleNpc n).
Proof.
  intros e s c a s' c' H. unfold idleNpc in H. run_inv H;
    try reflexivity;
    try (apply readonly_wander in Hrun; congruence);
    try (apply readonly_idleWorker in H; congruence).
Qed.

Lemma readonly_arriveNpc n t : readonly (arriveNpc n t).
Proof.
  intros e s c a s' c' H. unfold arriveNpc in H. run_inv H; reflexivity.
Qed.

Lemma readonly_movingNpc n : readonly (movingNpc n).
Proof.
  intros e s c a s' c' H. unfold movingNpc in H. run_inv H;
    try reflexivity. eapply readonly_arriveNpc; eassumption.
Qed.

Lemma keeps_craftingNpc n : keeps Inv (craftingNpc n).
Proof.
  keeps_start H. unfold craftingNpc in H. run_inv H; inv_simpl;
    try assumption. intuition lia.
Qed.

Lemma building_ok_progress b :
  building_ok b ->
  let b1 := bld_with_progress b (constructionProgress b + 10) in
  building_ok
    (if constructionProgress b1 >=? maxConstructionProgress b1
     then bld_with_completed b1 true else b1).
Proof.
  intros [H0 Hc]. simpl.
  destruct (Z.geb_spec (constructionProgress b + 10)
                       (maxConstructionProgress b)) as [Hge|Hlt];
    unfold building_ok; simpl.
  - split; [lia|]. split; [lia | reflexivity].
  - split; [lia|]. split; [intros Hd; apply Hc in Hd; lia | lia].
Qed.

Lemma keeps_buildingNpc n : keeps Inv (buildingNpc n).
Proof.
  keeps_start H. unfold buildingNpc in H. run_inv H; inv_simpl;
    try assumption;
    destruct HI as [Hr Hb]; (split; [exact Hr|]);
    try match goal with
      | Hl : buildings ?s !! ?i = Some ?b |- Forall _ (<[?i := ?b']> _) =>
          apply Forall_insert; [exact Hb|];
          pose proof (building_ok_progress b
                        (proj1 (Forall_lookup _ _) Hb _ _ Hl)) as Hok;
          simpl in Hok
      end.
  all: try match goal with
      | Hc : (_ >=? _) = _ |- _ => rewrite Hc in Hok; exact Hok
      end.
Qed.

Lemma keeps_farmingNpc n : keeps Inv (farmingNpc n).
Proof.
  keeps_start H. unfold farmingNpc in H. run_inv H; inv_simpl;
    try assumption; intuition lia.
Qed.

Lemma keeps_gatherYield n t : keeps Inv (gatherYield n t).
Proof.
  keeps_start H. unfold gatherYield in H. run_inv H; inv_simpl;
    try assumption; intuition lia.
Qed.

Lemma keeps_gatheringNpc n : keeps Inv (gatheringNpc n).
Proof.
  keeps_start H. unfold gatheringNpc in H. run_inv H;
    try (apply keeps_gatherYield in Hrun; [|exact HI]);
    inv_simpl; assumption.
Qed.

Lemma keeps_updateNpc n : keeps Inv (updateNpc n).
Proof.
  unfold updateNpc. destruct (state n).
  - apply readonly_keeps, readonly_idleNpc.
  - apply readonly_keeps, readonly_movingNpc.
  - apply keeps_gatheringNpc.
  - apply keeps_buildingNpc.
  - keeps_start H. run_inv H. assumption.
  - keeps_start H. run_inv H. assumption.
  - apply keeps_craftingNpc.
  - apply keeps_farmingNpc.
Qed.

Lemma keeps_updateWeather : keeps Inv updateWeather.
Proof.
  keeps_start H. unfold updateWeather in H. run_inv H; inv_simpl; assumption.
Qed.

Lemma keeps_randomEvents : keeps Inv randomEvents.
Proof.
  keeps_start H. unfold randomEvents in H. run_inv H; inv_simpl;
    try assumption; intuition lia.
Qed.

Lemma keeps_updateGameStateM : keeps Inv updateGameStateM.
Proof.
  unfold updateGameStateM.
  apply keeps_bind; [apply keeps_modify; intros s Hs; exact Hs | intros _].
  apply keeps_bind; [apply keeps_updateWeather | intros _].
  apply keeps_bind; [apply keeps_get | intros s].
  apply keeps_bind.
  { destruct (Z.rem (tickCount s) 100 =? 0); [|apply keeps_ret].
    keeps_start H. run_inv H. inv_simpl. intuition lia. }
  intros _. apply keeps_bind; [apply keeps_get | intros s1].
  apply keeps_bind; [apply keeps_mapM, keeps_updateNpc | intros ns].
  apply keeps_bind; [apply keeps_modify; intros s2 Hs; exact Hs | intros _].
  apply keeps_randomEvents.
Qed.

Lemma updateGameState_Inv e s s' :
  Inv s -> updateGameState e s = Ok s' -> Inv s'.
Proof.
  intros HI H. unfold updateGameState in H.
  destruct (updateGameStateM e s 0%nat) as [[[u s1] c1]|] eqn:Hrun;
    [|discriminate].
  injection H as <-. eapply keeps_updateGameStateM; eassumption.
Qed.

Lemma keeps_bless : keeps Inv bless.
Proof.
  keeps_start H. unfold bless in H. run_inv H; inv_simpl;
    try assumption. intuition lia.
Qed.

Lemma keeps_cycleRole : keeps Inv cycleRole.
Proof.
  keeps_start H. unfold cycleRole in H. run_inv H; inv_simpl; assumption.
Qed.

Lemma handleAction_Inv e a s s' :
  Inv s -> handleAction e a s = Ok s' -> Inv s'.
Proof.
  intros HI H. unfold handleAction in H.
  destruct (handleActionM a e s 0%nat) as [[[u s1] c1]|] eqn:Hrun;
    [|discriminate].
  injection H as <-. unfold handleActionM in Hrun.
  destruct (String.eqb a "BLESS"); [eapply keeps_bless; eassumption|].
  destruct (String.eqb a "CYCLE_ROLE"); [eapply keeps_cycleRole; eassumption|].
  run_inv Hrun. exact HI.
Qed.

(** A cost that was checked is covered by the balance. *)
Lemma covered o bal :
  truthy o && (bal <? amount o) = false -> truthy o = true -> amount o <= bal.
Proof. intros H Ht. rewrite Ht in H. simpl in H. lia. Qed.

Lemma placeBuilding_Some e s xx yy kind s' :
  placeBuilding e s xx yy kind = Ok (Some s') ->
  (forall k c, BUILDING_COSTS kind k = Some c ->
               0 < c <= getRes (resources s) k) /\
  (forall k, getRes (resources s') k =
             getRes (resources s) k - amount (BUILDING_COSTS kind k)) /\
  logs s' <> logs s /\ length (logs s') = S (length (logs s)) /\
  exists b, buildings s' = (buildings s ++ [b])%list /\
            bld_pos b = mkPosition xx yy /\ structureType b = kind /\
            completed b = false /\ constructionProgress b = 0 /\
            maxConstructionProgress b = 100.
Proof.
  intros H. unfold placeBuilding in H.
  destruct (_ || _ || _ || _); [discriminate|].
  destruct (existsb _ _); [discriminate|].
  destruct (readTile _ _ _) as [tile|]; [|discriminate].
  destruct (_ || _); [discriminate|].
  destruct (truthy _ && _) eqn:Hw; [discriminate|].
  destruct (truthy _ && _) eqn:Hs in H; [discriminate|].
  destruct (truthy _ && _) eqn:Hf in H; [discriminate|].
  injection H as <-. simpl.
  split; [|split; [|split; [|split]]].
  - intros k c Hc. destruct kind, k; simpl in *; simplify_eq; lia.
  - intros k. destruct kind, k; simpl; lia.
  - intros Heq. apply (f_equal (@length _)) in Heq. simpl in Heq. lia.
  - reflexivity.
  - eexists. repeat split.
Qed.

Lemma placeBuilding_Inv e s xx yy kind s' :
  Inv s -> placeBuilding e s xx yy kind = Ok (Some s') -> Inv s'.
Proof.
  intros [Hr Hb] H. apply placeBuilding_Some in H.
  destruct H as (Hcov & Hres & _ & _ & b & Hbs & _ & _ & Hc & Hp & Hm).
  split.
  - assert (Hk : forall k, 0 <= getRes (resources s') k).
    { intros k. rewrite Hres.
      assert (0 <= getRes (resources s) k)
        by (destruct Hr as (? & ? & ? & ?); destruct k; simpl; assumption).
      destruct (BUILDING_COSTS kind k) as [c|] eqn:Hk; simpl.
      - specialize (Hcov k c Hk). lia.
      - lia. }
    repeat split; [apply (Hk WOOD) | apply (Hk STONE) | apply (Hk FOOD)
                   | apply (Hk FATE)].
  - rewrite Hbs. apply Forall_app. split; [exact Hb|].
    apply Forall_singleton. unfold building_ok. rewrite Hc, Hp, Hm.
    split; [lia|]. split; [discriminate | lia].
Qed.

Lemma genesis_state e name seedInput s :
  genesis e name seedInput = Ok s ->
  buildings s = [base_01] /\ resources s = mkResources 0 0 20 0 /\
  length (logs s) = 1%nat /\
  generateMap MAP_WIDTH MAP_HEIGHT (seed s) = Ok (gs_map s) /\
  (forall sd, seedInput = Some sd -> seed s = sd).
Proof.
  unfold genesis. intros H.
  destruct (createInitialState _ _ _ _ _) as [[[s0 u] c]|] eqn:Hrun;
    [|discriminate].
  injection H as ->. unfold createInitialState in Hrun.
  apply bind_Ok in Hrun as (sd & u1 & c1 & Hsd & Hrun).
  run_inv Hrun. simpl. repeat split; [exact Hres|].
  intros sd' ->. now run_inv Hsd.
Qed.

Lemma genesis_Inv e name seedInput s :
  genesis e name seedInput = Ok s -> Inv s.
Proof.
  intros H. apply genesis_state in H as (Hb & Hr & _). split.
  - rewrite Hr. unfold resources_nonneg. simpl. lia.
  - rewrite Hb. apply Forall_singleton. unfold building_ok, base_01. simpl.
    split; [lia|]. split; [lia | reflexivity].
Qed.

Lemma serve_Inv r s s' : Inv s -> serve r s = Some s' -> Inv s'.
Proof.
  intros HI H. destruct r as [e|e xx yy kind|id|e a]; simpl in H.
  - destruct (updateGameState e s) eqn:Hu; [|discriminate].
    injection H as <-. eapply updateGameState_Inv; eassumption.
  - destruct (placeBuilding e s xx yy kind) as [[s1|]|] eqn:Hp;
      try discriminate.
    injection H as <-. eapply placeBuilding_Inv; eassumption.
  - injection H as <-. exact HI.
  - destruct (handleAction e a s) eqn:Ha; [|discriminate].
    injection H as <-. eapply handleAction_Inv; eassumption.
Qed.

Lemma reachable_Inv s : reachable s -> Inv s.
Proof.
  induction 1 as [e name seedInput s Hg | r s s' _ IH Hs].
  - eapply genesis_Inv; eassumption.
  - eapply serve_Inv; eassumption.
Qed.

Lemma run_reachable rs s s' : reachable s -> run rs s = Some s' -> reachable s'.
Proof.
  revert s. induction rs as [|r rs IH]; intros s Hs H; simpl in H.
  - now injection H as <-.
  - destruct (serve r s) as [s1|] eqn:Hr; [|discriminate].
    eapply IH; [|exact H]. eapply reach_serve; eassumption.
Qed.

Lemma history_reachable e name seedInput rs s :
  history e name seedInput rs = Some s -> reachable s.
Proof.
  unfold history. destruct (genesis e name seedInput) as [g|] eqn:Hg;
    [|discriminate].
  apply run_reachable. eapply reach_genesis. exact Hg.
Qed.

Lemma readonly_npcs_updateWeather e s c u s' c' :
  updateWeather e s c = Ok (u, s', c') -> npcs s' = npcs s.
Proof. intros H. unfold updateWeather in H. run_inv H; reflexivity. Qed.

Lemma readonly_npcs_randomEvents e s c u s' c' :
  randomEvents e s c = Ok (u, s', c') -> npcs s' = npcs s.
Proof. intros H. unfold randomEvents in H. run_inv H; reflexivity. Qed.


(** ** The genesis Base stays where it is *)

Ltac base_simpl := unfold BaseInv in *; simpl in *.

Lemma writeTile_keeps_no_forest m yy xx t m' :
  t <> FOREST -> writeTile m yy xx t = Ok m' ->
  ~ tileIs m FOREST 25 20 -> ~ tileIs m' FOREST 25 20.
Proof.
  intros Ht Hw Hno. unfold tileIs in *.
  rewrite (readTile_writeTile _ _ _ _ _ 20 25 Hw).
  case_bool_decide; [congruence | exact Hno].
Qed.

Lemma keeps_Base_gatherYield n t : keeps BaseInv (gatherYield n t).
Proof.
  keeps_start H. unfold gatherYield in H. run_inv H; base_simpl;
    try assumption;
    (split; [tauto|]);
    eapply writeTile_keeps_no_forest; try eassumption;
    try discriminate; tauto.
Qed.

Lemma keeps_Base_gatheringNpc n : keeps BaseInv (gatheringNpc n).
Proof.
  keeps_start H. unfold gatheringNpc in H. run_inv H;
    try (apply keeps_Base_gatherYield in Hrun; [|exact HI]);
    base_simpl; assumption.
Qed.

Lemma head_insert_keeps (l : list Building) i b0 b' b rest :
  l = b :: rest -> l !! i = Some b0 ->
  structureType b' = structureType b0 -> bld_pos b' = bld_pos b0 ->
  exists b1 rest1, <[i := b']> l = b1 :: rest1 /\
                   structureType b1 = structureType b /\
                   bld_pos b1 = bld_pos b.
Proof.
  intros -> Hl Hk Hp. destruct i as [|i]; simpl in *.
  - injection Hl as ->. eauto.
  - eauto.
Qed.

Lemma keeps_Base_buildingNpc n : keeps BaseInv (buildingNpc n).
Proof.
  keeps_start H. unfold buildingNpc in H. run_inv H; base_simpl;
    try assumption;
    destruct HI as [(hd & tl & Hhd & Hk & Hp) Hno]; (split; [|exact Hno]);
    match goal with
    | Hl : buildings ?s !! ?i = Some ?b0 |- context [<[?i := ?b']> _] =>
        destruct (head_insert_keeps (buildings s) i b0 b' hd tl Hhd Hl
                    eq_refl eq_refl) as (hd1 & tl1 & -> & Hk1 & Hp1)
    end;
    exists hd1, tl1; (split; [reflexivity|]); split; congruence.
Qed.

Lemma keeps_Base_updateNpc n : keeps BaseInv (updateNpc n).
Proof.
  unfold updateNpc. destruct (state n).
  - apply readonly_keeps, readonly_idleNpc.
  - apply readonly_keeps, readonly_movingNpc.
  - apply keeps_Base_gatheringNpc.
  - apply keeps_Base_buildingNpc.
  - apply keeps_ret.
  - apply keeps_ret.
  - keeps_start H. unfold craftingNpc in H. run_inv H; base_simpl; assumption.
  - keeps_start H. unfold farmingNpc in H. run_inv H; base_simpl; assumption.
Qed.

Lemma genesis_BaseInv e name seedInput s :
  genesis e name seedInput = Ok s -> BaseInv s.
Proof.
  intros H. apply genesis_state in H as (Hb & _ & _ & Hmap & _). split.
  - rewrite Hb. exists base_01, []. repeat split.
  - destruct (generateMap_ok MAP_WIDTH MAP_HEIGHT (seed s))
      as (m & Hm & _ & Hc); [unfold MAP_WIDTH; lia | unfold MAP_HEIGHT; lia |].
    rewrite Hm in Hmap. injection Hmap as <-. unfold tileIs.
    rewrite (Hc 25 20); [discriminate | |];
      unfold MAP_WIDTH, MAP_HEIGHT;
      change (50 `div` 2) with 25; change (40 `div` 2) with 20; lia.
Qed.

Lemma keeps_Base_updateWeather : keeps BaseInv updateWeather.
Proof.
  keeps_start H. unfold updateWeather in H. run_inv H; base_simpl; assumption.
Qed.

Lemma keeps_Base_updateGameStateM : keeps BaseInv updateGameStateM.
Proof.
  unfold updateGameStateM.
  apply keeps_bind; [apply keeps_modify; intros s Hs; exact Hs | intros _].
  apply keeps_bind; [apply keeps_Base_updateWeather | intros _].
  apply keeps_bind; [apply keeps_get | intros s].
  apply keeps_bind.
  { destruct (Z.rem (tickCount s) 100 =? 0); [|apply keeps_ret].
    keeps_start H. run_inv H. base_simpl. assumption. }
  intros _. apply keeps_bind; [apply keeps_get | intros s1].
  apply keeps_bind; [apply keeps_mapM, keeps_Base_updateNpc | intros ns].
  apply keeps_bind; [apply keeps_modify; intros s2 Hs; exact Hs | intros _].
  keeps_start H. unfold randomEvents in H. run_inv H; base_simpl; assumption.
Qed.

Lemma serve_BaseInv r s s' : BaseInv s -> serve r s = Some s' -> BaseInv s'.
Proof.
  intros HI H. destruct r as [e|e xx yy kind|id|e a]; simpl in H.
  - unfold updateGameState in H.
    destruct (updateGameStateM e s 0%nat) as [[[u s1] c1]|] eqn:Hrun;
      [|discriminate].
    injection H as <-. eapply keeps_Base_updateGameStateM; eassumption.
  - destruct (placeBuilding e s xx yy kind) as [[s1|]|] eqn:Hp;
      try discriminate.
    injection H as <-. unfold placeBuilding in Hp.
    repeat match type of Hp with
           | (if ?b then _ else _) = _ => destruct b; [discriminate|]
           | match ?r with Ok _ => _ | Throw _ => _ end = _ =>
               destruct r; [|discriminate]
           end.
    injection Hp as <-. destruct HI as [(b & rest & Hb & Hk & Hpos) Hno].
    base_simpl. split; [|exact Hno]. rewrite Hb. simpl. eauto.
  - injection H as <-. exact HI.
  - unfold handleAction in H.
    destruct (handleActionM a e s 0%nat) as [[[u s1] c1]|] eqn:Hrun;
      [|discriminate].
    injection H as <-. unfold handleActionM in Hrun.
    destruct (String.eqb a "BLESS").
    + unfold bless in Hrun. run_inv Hrun; base_simpl; assumption.
    + destruct (String.eqb a "CYCLE_ROLE").
      * unfold cycleRole in Hrun. run_inv Hrun; base_simpl; assumption.
      * run_inv Hrun. exact HI.
Qed.

Lemma reachable_BaseInv s : reachable s -> BaseInv s.
Proof.
  induction 1 as [e name seedInput s Hg | r s s' _ IH Hs].
  - eapply genesis_BaseInv; eassumption.
  - eapply serve_BaseInv; eassumption.
Qed.

(** The turn of the [i]-th agent in a tick of a reachable state: the state
    it runs on satisfies both invariants, and its result is the agent at
    index [i] after the tick. *)
Lemma turn_of_agent e s s' i npc :
  reachable s -> updateGameState e s = Ok s' -> npcs s !! i = Some npc ->
  exists s1 c1 npc' s2 c2,
    Inv s1 /\ BaseInv s1 /\
    updateNpc npc e s1 c1 = Ok (npc', s2, c2) /\ npcs s' !! i = Some npc'.
Proof.
  intros Hreach H Hi.
  pose proof (conj (reachable_Inv s Hreach) (reachable_BaseInv s Hreach))
    as Hgood.
  unfold updateGameState in H.
  destruct (updateGameStateM e s 0%nat) as [[[u s0] c0]|] eqn:Hrun;
    [|discriminate].
  injection H as ->. unfold updateGameStateM in Hrun.
  apply bind_Ok in Hrun as (u1 & w1 & c1 & H1 & Hrun). run_inv H1.
  apply bind_Ok in Hrun as (u2 & w2 & c2 & H2 & Hrun).
  pose proof (readonly_npcs_updateWeather _ _ _ _ _ _ H2) as Hn2.
  apply (keeps_and _ _ _ keeps_updateWeather keeps_Base_updateWeather) in H2;
    [|exact Hgood].
  simpl in Hn2.
  apply bind_Ok in Hrun as (w3 & w3' & c3 & H3 & Hrun). run_inv H3.
  apply bind_Ok in Hrun as (u4 & w4 & c4 & H4 & Hrun).
  assert (Hn4 : npcs w4 = npcs s /\ Inv w4 /\ BaseInv w4).
  { destruct (Z.rem (tickCount w3') 100 =? 0); run_inv H4.
    - split; [exact Hn2|]. destruct H2 as [[Hr Hb] Hbase].
      split; [split; [|exact Hb]|exact Hbase].
      unfold resources_nonneg in *. simpl. lia.
    - tauto. }
  destruct Hn4 as (Hn4 & HI4 & HB4).
  apply bind_Ok in Hrun as (w5 & w5' & c5 & H5 & Hrun). run_inv H5.
  apply bind_Ok in Hrun as (ns & w6 & c6 & H6 & Hrun).
  apply bind_Ok in Hrun as (u7 & w7 & c7 & H7 & Hrun). run_inv H7.
  apply readonly_npcs_randomEvents in Hrun. simpl in Hrun.
  rewrite Hn4 in H6.
  eapply (mapM_lookup_keeps (fun s => Inv s /\ BaseInv s)) in H6
    as (s1 & k1 & b & s2 & k2 & [HI1 HB1] & Hb & Hl);
    [|intros a; apply keeps_and; [apply keeps_updateNpc
                                 |apply keeps_Base_updateNpc]
     |split; assumption|exact Hi].
  rewrite Hrun. eauto 12.
Qed.

(** ** A tick of a reachable state returns *)

Lemma findNearestEntity_In l start f b :
  findNearestEntity l start f = Some b -> b ∈ l.
Proof.
  unfold findNearestEntity.
  assert (H : forall acc,
             (forall b0, fst acc = Some b0 -> b0 ∈ l) ->
             forall l', l' ⊆ l ->
             forall b0, fst (fold_left (scanEntity start f) l' acc) = Some b0 ->
                        b0 ∈ l).
  { intros acc Hacc l'. revert acc Hacc.
    induction l' as [|a l' IH]; intros acc Hacc Hsub b0; simpl.
    - apply Hacc.
    - apply IH.
      + intros b1. unfold scanEntity. destruct acc as [nearest minDst].
        destruct (match f with Some f0 => negb (f0 a) | None => false end);
          [apply Hacc|].
        destruct (ltDist _ _); [|apply Hacc].
        simpl. intros [= <-]. apply Hsub. now left.
      + intros x Hx. apply Hsub. now right. }
  apply (H (None, Infinity)); [discriminate | reflexivity].
Qed.

Lemma find_In {A} (p : A -> bool) (l : list A) a :
  find p l = Some a -> a ∈ l.
Proof. intros H. apply find_some in H as [H _]. now apply list_elem_of_In. Qed.

Lemma World_ok_building s b :
  World_ok s -> b ∈ buildings s -> inBounds (bld_pos b).
Proof. intros [_ Hb] Hin. rewrite Forall_forall in Hb. now apply Hb. Qed.

Lemma World_ok_nearest s start type p :
  World_ok s -> findNearestTile (gs_map s) start type = Some p -> inBounds p.
Proof.
  intros [[Hl Hr] _] Hf.
  pose proof (findNearestTile_spec (gs_map s) start type) as Hspec.
  rewrite Hf in Hspec. destruct Hspec as ([Hy Hx] & _).
  unfold inBounds. split; [|lia].
  unfold rowLength in Hx. destruct (gs_map s) as [|r m]; [simpl in Hx; lia|].
  apply Forall_cons_1 in Hr as [Hr _]. lia.
Qed.

Lemma wander_total p e s c :
  exists t c', wander p e s c = Ok (t, s, c') /\ inBounds t.
Proof.
  unfold wander, bind, random, ret. eexists _, _. split; [reflexivity|].
  unfold inBounds, MAP_WIDTH, MAP_HEIGHT. simpl. lia.
Qed.

Lemma readTile_in_grid s p :
  World_ok s -> inBounds p ->
  exists t, readTile (gs_map s) (pos_y p) (pos_x p) = Ok (Some t).
Proof.
  intros [Hg _] [Hx Hy]. unfold readTile.
  destruct (index_in_range (gs_map s) (pos_y p)) as [row Hrow];
    [destruct Hg; lia|].
  rewrite Hrow. pose proof (grid_row _ _ _ _ _ Hg Hrow) as Hlen.
  destruct (index_in_range row (pos_x p)) as [t Ht]; [lia|].
  rewrite Ht. eauto.
Qed.

Lemma Agent_ok_goTo n t : inBounds t -> Agent_ok (goTo n t).
Proof. intros Ht t' [= <-]. exact Ht. Qed.

Lemma idleNpc_total n e s c :
  World_ok s -> Agent_ok n ->
  exists n' c', idleNpc n e s c = Ok (n', s, c') /\ Agent_ok n'.
Proof.
  intros Hw Hn.
  assert (Hwander : forall (m : NPC) c0,
             exists n' c',
               (let* t := wander (npc_pos m) in ret (goTo m t)) e s c0
               = Ok (n', s, c') /\ Agent_ok n').
  { intros m c0. destruct (wander_total (npc_pos m) e s c0) as (t & c' & Hrun & Ht).
    unfold bind. rewrite Hrun. eexists _, _. split; [reflexivity|].
    now apply Agent_ok_goTo. }
  assert (Hrest : forall (m : NPC) c0,
             Agent_ok m ->
             exists n' c',
               (let* newState := get in
                match role m with
                | BUILDER =>
                    match findNearestEntity (buildings newState) (npc_pos m)
                            (Some (fun e => negb (completed e))) with
                    | Some site =>
                        ret (npc_with_thought (goTo m (bld_pos site))
                                              "Time to build.")
                    | None => let* t := wander (npc_pos m) in ret (goTo m t)
                    end
                | FARMER =>
                    match findNearestEntity (buildings newState) (npc_pos m)
                            (Some (fun e => isFarm e && completed e)) with
                    | Some farm =>
                        ret (npc_with_thought (goTo m (bld_pos farm))
                                              "Tending the crops.")
                    | None => let* t := wander (npc_pos m) in ret (goTo m t)
                    end
                | WORKER => idleWorker m
                | _ =>
                    let* r2 := random in
                    if Qltb r2 0.2
                    then let* t := wander (npc_pos m) in ret (goTo m t)
                    else ret m
                end) e s c0 = Ok (n', s, c') /\ Agent_ok n').
  { intros m c0 Hm. unfold bind at 1. unfold get at 1.
    assert (Hother : exists n' c',
               (let* r2 := random in
                if Qltb r2 0.2
                then let* t := wander (npc_pos m) in ret (goTo m t)
                else ret m) e s c0 = Ok (n', s, c') /\ Agent_ok n').
    { unfold bind at 1. unfold random at 1.
      destruct (Qltb (rnd e c0) 0.2); [apply Hwander|].
      eexists _, _. split; [reflexivity | exact Hm]. }
    destruct (role m); try exact Hother.
    - (* WORKER *)
      unfold idleWorker. unfold bind at 1. unfold get at 1.
      assert (Hgo : forall type c1,
                 exists n' c',
                   match findNearestTile (gs_map s) (npc_pos m) type with
                   | Some target => ret (goTo m target)
                   | None => let* t := wander (npc_pos m) in ret (goTo m t)
                   end e s c1 = Ok (n', s, c') /\ Agent_ok n').
      { intros type c1.
        destruct (findNearestTile _ _ _) as [p|] eqn:Hf; [|apply Hwander].
        eexists _, _. split; [reflexivity|].
        apply Agent_ok_goTo. eapply World_ok_nearest; eassumption. }
      assert (Hbase : forall c1,
                 exists n' c',
                   match find isBase (buildings s) with
                   | Some base =>
                       ret (npc_with_thought (goTo m (bld_pos base))
                                             "Need a pickaxe...")
                   | None => ret m
                   end e s c1 = Ok (n', s, c') /\ Agent_ok n').
      { intros c1. destruct (find isBase _) as [base|] eqn:Hf.
        - eexists _, _. split; [reflexivity|].
          intros t [= <-]. eapply World_ok_building; [exact Hw|].
          eapply find_In; exact Hf.
        - eexists _, _. split; [reflexivity | exact Hm]. }
      destruct (negb (pickaxe (equipment m))).
      + destruct (wood (resources s) >=? amount (TOOL_COSTS_PICKAXE WOOD));
          unfold bind, ret at 1; [apply Hbase | apply Hgo].
      + unfold bind at 1. unfold bind at 1. unfold random at 1. unfold ret at 1.
        apply Hgo.
    - (* BUILDER *)
      destruct (findNearestEntity _ _ _) as [site|] eqn:Hf; [|apply Hwander].
      eexists _, _. split; [reflexivity|].
      intros t [= <-]. eapply World_ok_building; [exact Hw|].
      eapply findNearestEntity_In; exact Hf.
    - (* FARMER *)
      destruct (findNearestEntity _ _ _) as [farm|] eqn:Hf; [|apply Hwander].
      eexists _, _. split; [reflexivity|].
      intros t [= <-]. eapply World_ok_building; [exact Hw|].
      eapply findNearestEntity_In; exact Hf. }
  unfold idleNpc. unfold bind at 1. unfold random at 1.
  destruct (Qltb (rnd e c) 0.05).
  - unfold bind at 1. unfold bind at 1. unfold random at 1. unfold ret at 1.
    apply Hrest. exact Hn.
  - unfold bind at 1. unfold ret at 1. apply Hrest. exact Hn.
Qed.

Ltac case_conditions :=
  repeat match goal with
    | |- context [if ?b then _ else _] => destruct b eqn:?
    | |- context [match ?x with Some _ => _ | None => _ end] =>
        destruct x eqn:?
    end.

Ltac agent_ok Hn :=
  first [ exact Hn
        | let t := fresh "t" in
          intros t; simpl; first [discriminate | apply Hn] ].

Ltac returns Hw Hn :=
  eexists _, _, _; split; [reflexivity|]; split; [exact Hw | agent_ok Hn].

Lemma movingNpc_total n e s c :
  World_ok s -> Agent_ok n ->
  exists n' s' c', movingNpc n e s c = Ok (n', s', c')
                   /\ World_ok s' /\ Agent_ok n'.
Proof.
  intros Hw Hn. unfold movingNpc.
  destruct (targetPos n) as [t|] eqn:Ht; [|returns Hw Hn].
  destruct (distance (npc_pos n) t <=? 1); [|returns Hw Hn].
  unfold arriveNpc, bind, get, liftRes, ret.
  destruct (readTile_in_grid s t Hw (Hn t Ht)) as [tile ->].
  case_conditions; returns Hw Hn.
Qed.

Lemma craftingNpc_total n e s c :
  World_ok s -> Agent_ok n ->
  exists n' s' c', craftingNpc n e s c = Ok (n', s', c')
                   /\ World_ok s' /\ Agent_ok n'.
Proof.
  intros Hw Hn. unfold craftingNpc, bind, get, ret, addResource, unshiftLog,
    Date_now, toLocaleTimeString, modify.
  case_conditions; returns Hw Hn.
Qed.

Lemma farmingNpc_total n e s c :
  World_ok s -> Agent_ok n ->
  exists n' s' c', farmingNpc n e s c = Ok (n', s', c')
                   /\ World_ok s' /\ Agent_ok n'.
Proof.
  intros Hw Hn. unfold farmingNpc, bind, get, ret, addResource, random,
    modify.
  case_conditions; returns Hw Hn.
Qed.

Lemma buildingNpc_total n e s c :
  World_ok s -> Agent_ok n ->
  exists n' s' c', buildingNpc n e s c = Ok (n', s', c')
                   /\ World_ok s' /\ Agent_ok n'.
Proof.
  intros Hw Hn. unfold buildingNpc.
  destruct (_ <=? 0); [|returns Hw Hn].
  unfold bind at 1. unfold get at 1.
  destruct (findIndex _ _) as [i|]; [|].
  - destruct (buildings s !! i) as [b0|] eqn:Hl.
    + unfold bind, get, ret, unshiftLog, Date_now, toLocaleTimeString, modify.
      destruct (_ >=? _); simpl;
        case_conditions;
        (eexists _, _, _; split; [reflexivity|]; split; [|agent_ok Hn]);
        (split; [exact (proj1 Hw)|]); simpl;
        (apply Forall_insert; [exact (proj2 Hw)|]); simpl;
        (eapply World_ok_building; [exact Hw|]);
        eapply list_elem_of_lookup_2; exact Hl.
    + unfold bind, get, ret. simpl. rewrite Hl. returns Hw Hn.
  - unfold bind, get, ret. returns Hw Hn.
Qed.

(** Run the deterministic head of a computation. *)
Ltac exec := repeat first [ erewrite bind_run by reflexivity
                          | progress cbv beta ].

Lemma World_ok_resources s r : World_ok s -> World_ok (gs_with_resources s r).
Proof. intros Hw. exact Hw. Qed.

Lemma World_ok_logs s l : World_ok s -> World_ok (gs_with_logs s l).
Proof. intros Hw. exact Hw. Qed.

Lemma setTile_total p t e s c :
  World_ok s -> inBounds p ->
  exists s', setTile p t e s c = Ok (tt, s', c) /\ World_ok s'.
Proof.
  intros [Hg Hb] [Hx Hy]. unfold setTile.
  destruct (writeTile_ok _ _ (gs_map s) (pos_y p) (pos_x p) t Hg Hy Hx)
    as [m' Hm'].
  exec. erewrite bind_run; [|unfold liftRes; rewrite Hm'; reflexivity].
  cbv beta. eexists. split; [reflexivity|]. split; [|exact Hb].
  simpl. eapply writeTile_grid; eassumption.
Qed.

Lemma maybe_setTile_total (b : bool) p t e s c :
  World_ok s -> inBounds p ->
  exists s', (if b then setTile p t else ret tt) e s c = Ok (tt, s', c)
             /\ World_ok s'.
Proof.
  intros Hw Hp. destruct b; [now apply setTile_total|].
  eexists. split; [reflexivity | exact Hw].
Qed.

Lemma gatherYield_total n t e s c :
  World_ok s -> inBounds t -> Agent_ok n ->
  exists y s' c',
    gatherYield n t e s c = Ok (y, s', c') /\ World_ok s'
    /\ forall early, y = inr early -> Agent_ok early.
Proof.
  intros Hw Ht Hn. unfold gatherYield.
  destruct (readTile_in_grid s t Hw Ht) as [tile Hread].
  exec. erewrite bind_run; [|unfold liftRes; rewrite Hread; reflexivity].
  cbv beta. destruct (isTile (Some tile) FOREST).
  - exec.
    match goal with
    | |- context [bind (if ?b then _ else _) _ _ ?s1 _] =>
        destruct b; exec;
        match goal with
        | |- context [bind (if ?b2 then setTile _ _ else _) _ _ ?s2 ?c2] =>
            destruct (maybe_setTile_total b2 t GRASS e s2 c2)
              as (s3 & Hrun & Hw3); [exact Hw | exact Ht |];
            erewrite bind_run by exact Hrun
        end
    end;
      (eexists _, _, _; split; [reflexivity|]; split; [exact Hw3|]);
      discriminate.
  - destruct (isTile (Some tile) MOUNTAIN).
    + destruct (pickaxe (equipment n)).
      * exec.
        match goal with
        | |- context [bind (if ?b2 then setTile _ _ else _) _ _ ?s2 ?c2] =>
            destruct (maybe_setTile_total b2 t FLOOR e s2 c2)
              as (s3 & Hrun & Hw3); [exact Hw | exact Ht |];
            erewrite bind_run by exact Hrun
        end.
        eexists _, _, _. split; [reflexivity|]. split; [exact Hw3|].
        discriminate.
      * eexists _, _, _. split; [reflexivity|]. split; [exact Hw|].
        intros early [= <-]. agent_ok Hn.
    + eexists _, _, _. split; [reflexivity|]. split; [exact Hw|]. discriminate.
Qed.

Lemma gatheringNpc_total n e s c :
  World_ok s -> Agent_ok n ->
  exists n' s' c', gatheringNpc n e s c = Ok (n', s', c')
                   /\ World_ok s' /\ Agent_ok n'.
Proof.
  intros Hw Hn. unfold gatheringNpc.
  destruct (_ <=? 0); [|returns Hw Hn].
  simpl. destruct (targetPos n) as [t|] eqn:Ht; [|returns Hw Hn].
  destruct (gatherYield_total
              (npc_with_actionTimer n (actionTimer n - 1)) t e s c Hw
              (Hn t Ht))
    as (y & s1 & c1 & Hrun & Hw1 & Hearly); [exact Hn|].
  erewrite bind_run by exact Hrun. cbv beta.
  destruct y as [[gathered secondary]|early].
  - exec.
    match goal with
    | |- context [if ?b then _ else _] => destruct b
    end; exec; eexists _, _, _;
      (split; [reflexivity|]); (split; [exact Hw1|]);
      intros t'; simpl; discriminate.
  - eexists _, _, _. split; [reflexivity|]. split; [exact Hw1|].
    now apply Hearly.
Qed.

Lemma updateNpc_total n e s c :
  World_ok s -> Agent_ok n ->
  exists n' s' c', updateNpc n e s c = Ok (n', s', c')
                   /\ World_ok s' /\ Agent_ok n'.
Proof.
  intros Hw Hn. unfold updateNpc. destruct (state n).
  - destruct (idleNpc_total n e s c Hw Hn) as (n' & c' & Hrun & Hn').
    eauto 10.
  - now apply movingNpc_total.
  - now apply gatheringNpc_total.
  - now apply buildingNpc_total.
  - returns Hw Hn.
  - returns Hw Hn.
  - now apply craftingNpc_total.
  - now apply farmingNpc_total.
Qed.

Lemma mapM_updateNpc_total l e s c :
  World_ok s -> Forall Agent_ok l ->
  exists l' s' c', mapM updateNpc l e s c = Ok (l', s', c')
                   /\ World_ok s' /\ Forall Agent_ok l'.
Proof.
  revert s c. induction l as [|n l IH]; intros s c Hw Hl; simpl.
  - eexists _, _, _. split; [reflexivity|]. split; [exact Hw | constructor].
  - apply Forall_cons_1 in Hl as [Hn Hl].
    destruct (updateNpc_total n e s c Hw Hn) as (n' & s1 & c1 & Hrun & Hw1 & Hn').
    destruct (IH s1 c1 Hw1 Hl) as (l' & s2 & c2 & Hrun2 & Hw2 & Hl').
    erewrite bind_run by exact Hrun. cbv beta.
    erewrite bind_run by exact Hrun2. cbv beta.
    eexists _, _, _. split; [reflexivity|]. split; [exact Hw2|].
    now constructor.
Qed.

Lemma updateGameState_total e s :
  Colony_ok s -> exists s', updateGameState e s = Ok s' /\ Colony_ok s'.
Proof.
  intros [Hw Hn]. unfold updateGameState, updateGameStateM. exec.
  assert (Hweather : exists s1,
             updateWeather e (gs_with_tickCount s (tickCount s + 1)) 0%nat
             = Ok (tt, s1, 0%nat)
             /\ World_ok s1 /\ npcs s1 = npcs s).
  { unfold updateWeather. exec. destruct (_ =? 0); exec;
      eexists; (split; [reflexivity|]); split; [exact Hw | reflexivity
                                                 | exact Hw | reflexivity]. }
  destruct Hweather as (s1 & Hrun1 & Hw1 & Hn1).
  erewrite bind_run by exact Hrun1. exec.
  assert (Hfate : exists s2,
             (if Z.rem (tickCount s1) 100 =? 0
              then addResource FATE 1 else ret tt) e s1 0%nat
             = Ok (tt, s2, 0%nat)
             /\ World_ok s2 /\ npcs s2 = npcs s).
  { destruct (_ =? 0); eexists; (split; [reflexivity|]);
      split; [exact Hw1 | exact Hn1 | exact Hw1 | exact Hn1]. }
  destruct Hfate as (s2 & Hrun2 & Hw2 & Hn2).
  erewrite bind_run by exact Hrun2. exec.
  destruct (mapM_updateNpc_total (npcs s2) e s2 0%nat Hw2)
    as (ns & s3 & c3 & Hrun3 & Hw3 & Hns); [rewrite Hn2; exact Hn|].
  erewrite bind_run by exact Hrun3. exec.
  unfold randomEvents. exec.
  destruct (Qltb (rnd e c3) 0.005); exec;
    [destruct (Qltb (rnd e (S c3)) 0.5); exec|];
    (eexists; split; [reflexivity|]); (split; [exact Hw3 | exact Hns]).
Qed.

Lemma placeBuilding_Colony_ok e s xx yy kind s' :
  Colony_ok s -> placeBuilding e s xx yy kind = Ok (Some s') -> Colony_ok s'.
Proof.
  intros [[Hg Hb] Hn] H. unfold placeBuilding in H.
  destruct (_ || _ || _ || _) eqn:Eb; [discriminate|].
  repeat match type of H with
         | (if ?b then _ else _) = _ => destruct b; [discriminate|]
         | match ?r with Ok _ => _ | Throw _ => _ end = _ =>
             destruct r; [|discriminate]
         end.
  injection H as <-. split; [split; [exact Hg|] | exact Hn]. simpl.
  apply Forall_app. split; [exact Hb|]. apply Forall_singleton. simpl.
  unfold inBounds. simpl. rewrite !orb_false_iff in Eb. lia.
Qed.

Lemma placeBuilding_returns e s xx yy kind :
  Colony_ok s -> exists r, placeBuilding e s xx yy kind = Ok r.
Proof.
  intros [Hw _]. unfold placeBuilding.
  destruct (_ || _ || _ || _) eqn:Eb; [eauto|].
  destruct (existsb _ _); [eauto|].
  destruct (readTile_in_grid s (mkPosition xx yy) Hw) as [t Ht].
  { unfold inBounds. simpl. rewrite !orb_false_iff in Eb. lia. }
  simpl in Ht. rewrite Ht. case_conditions; eauto.
Qed.

(** The role after [r] in the cycle; a role outside it is followed by the
    first one. *)
Lemma next_role r :
  index roles (Z.rem (indexOfRole r + 1) (Z.of_nat (length roles)))
  = Some match r with
         | WORKER => BUILDER
         | BUILDER => FARMER
         | FARMER => GUARD
         | GUARD => WORKER
         | EXPLORER => WORKER
         end.
Proof. destruct r; reflexivity. Qed.

Lemma Agent_ok_alter_same (f : NPC -> NPC) i l :
  (forall n t, targetPos (f n) = Some t -> targetPos n = Some t) ->
  Forall Agent_ok l -> Forall Agent_ok (alter f i l).
Proof.
  intros Hf Hl. rewrite Forall_lookup in *. intros j n Hj.
  destruct (decide (i = j)) as [->|Hne].
  - rewrite list_lookup_alter_eq in Hj.
    destruct (l !! j) as [n0|] eqn:Hn0; [|discriminate].
    simpl in Hj. injection Hj as <-.
    intros t Ht. apply (Hl j n0 Hn0). now apply Hf.
  - rewrite list_lookup_alter_ne in Hj by exact Hne. eapply Hl; exact Hj.
Qed.

Lemma handleAction_total e a s :
  Colony_ok s -> exists s', handleAction e a s = Ok s' /\ Colony_ok s'.
Proof.
  intros [Hw Hn]. unfold handleAction, handleActionM.
  destruct (String.eqb a "BLESS").
  - unfold bless. exec.
    destruct (selected s); [|eexists; split; [reflexivity | now split]].
    destruct (_ >=? 5); [|eexists; split; [reflexivity | now split]].
    destruct (findIndex _ _); [|eexists; split; [reflexivity | now split]].
    exec. unfold alterNpc. exec. eexists. split; [reflexivity|].
    split; [exact Hw|]. simpl. apply Agent_ok_alter_same; [|exact Hn].
    intros x t Ht. exact Ht.
  - destruct (String.eqb a "CYCLE_ROLE");
      [|eexists; split; [reflexivity | now split]].
    unfold cycleRole. exec.
    destruct (selected s); [|eexists; split; [reflexivity | now split]].
    destruct (findIndex _ _) as [i|];
      [|eexists; split; [reflexivity | now split]].
    destruct (npcs s !! i) as [n|];
      [|eexists; split; [reflexivity | now split]].
    rewrite next_role. unfold alterNpc. exec.
    eexists. split; [reflexivity|]. split; [exact Hw|]. simpl.
    apply Agent_ok_alter_same; [|exact Hn]. intros x t Ht. discriminate Ht.
Qed.

Lemma genesis_Colony_ok e name seedInput s :
  genesis e name seedInput = Ok s -> Colony_ok s.
Proof.
  intros H. pose proof (genesis_state _ _ _ _ H) as (Hb & _ & _ & Hmap & _).
  split; [split|].
  - destruct (generateMap_ok MAP_WIDTH MAP_HEIGHT (seed s))
      as (m & Hm & Hg & _); [unfold MAP_WIDTH; lia | unfold MAP_HEIGHT; lia |].
    rewrite Hm in Hmap. now injection Hmap as <-.
  - rewrite Hb. apply Forall_singleton. unfold inBounds, base_01. simpl.
    unfold MAP_WIDTH, MAP_HEIGHT. change (50 `div` 2) with 25.
    change (40 `div` 2) with 20. lia.
  - unfold genesis in H.
    destruct (createInitialState _ _ _ _ _) as [[[s0 u] c]|] eqn:Hrun;
      [|discriminate].
    injection H as ->. unfold createInitialState in Hrun.
    apply bind_Ok in Hrun as (sd & u1 & c1 & Hsd & Hrun).
    apply bind_Ok in Hrun as (m & u2 & c2 & Hm & Hrun).
    apply bind_Ok in Hrun as (ns & u3 & c3 & Hns & Hrun).
    run_inv Hrun. simpl.
    eapply mapM_Forall; [|exact Hns].
    intros i e0 w c0 n w' c' Hspawn. unfold spawnNpc in Hspawn.
    run_inv Hspawn. intros t Ht. discriminate Ht.
Qed.

Lemma serve_Colony_ok r s s' :
  Colony_ok s -> serve r s = Some s' -> Colony_ok s'.
Proof.
  intros HI H. destruct r as [e|e xx yy kind|id|e a]; simpl in H.
  - destruct (updateGameState_total e s HI) as (s1 & Hrun & Hok).
    rewrite Hrun in H. now injection H as <-.
  - destruct (placeBuilding e s xx yy kind) as [[s1|]|] eqn:Hp;
      try discriminate.
    injection H as <-. eapply placeBuilding_Colony_ok; eassumption.
  - injection H as <-. exact HI.
  - destruct (handleAction_total e a s HI) as (s1 & Hrun & Hok).
    rewrite Hrun in H. now injection H as <-.
Qed.

Lemma reachable_Colony_ok s : reachable s -> Colony_ok s.
Proof.
  induction 1 as [e name seedInput s Hg | r s s' _ IH Hs].
  - eapply genesis_Colony_ok; eassumption.
  - eapply serve_Colony_ok; eassumption.
Qed.

(** No call throws on a reachable state: genesis returns, a tick returns,
    an action returns, a construction request returns a state or a
    rejection. *)
Lemma reachable_calls_return s :
  reachable s ->
  (forall e, exists s', updateGameState e s = Ok s')
  /\ (forall e a, exists s', handleAction e a s = Ok s')
  /\ (forall e xx yy kind, exists r, placeBuilding e s xx yy kind = Ok r).
Proof.
  intros Hs. apply reachable_Colony_ok in Hs. split; [|split].
  - intros e. destruct (updateGameState_total e s Hs) as (s' & H & _). eauto.
  - intros e a. destruct (handleAction_total e a s Hs) as (s' & H & _). eauto.
  - intros e xx yy kind. now apply placeBuilding_returns.
Qed.

(** * The claims *)

(** ** Map generation (C8) *)

Lemma spawnNpc_total {W} i e (w : W) c :
  exists n c', spawnNpc i e w c = Ok (n, w, c').
Proof. unfold spawnNpc, generateName, spawnCoord. eexists _, _. reflexivity. Qed.

Lemma mapM_spawnNpc_total {W} l e (w : W) c :
  exists ns c', mapM spawnNpc l e w c = Ok (ns, w, c').
Proof.
  revert c. induction l as [|i l IH]; intros c; simpl.
  - eexists _, _. reflexivity.
  - destruct (spawnNpc_total i e w c) as (n & c1 & Hn).
    destruct (IH c1) as (ns & c2 & Hns).
    unfold bind. rewrite Hn, Hns. eexists _, _. reflexivity.
Qed.

Lemma genesis_total e name seedInput :
  exists s, genesis e name seedInput = Ok s.
Proof.
  unfold genesis, createInitialState.
  assert (Hsd : exists sd c,
             (match seedInput with
              | Some sd => ret sd
              | None => let* r := random in ret (floorMul r 1000000)
              end) e tt 0%nat = Ok (sd, tt, c)).
  { destruct seedInput; eexists _, _; reflexivity. }
  destruct Hsd as (sd & c & Hsd).
  destruct (generateMap_ok MAP_WIDTH MAP_HEIGHT sd) as (m & Hm & _);
    [unfold MAP_WIDTH; lia | unfold MAP_HEIGHT; lia |].
  destruct (mapM_spawnNpc_total (seqZ 0 5) e tt c) as (ns & c' & Hns).
  erewrite bind_run; [|exact Hsd].
  erewrite bind_run; [|unfold liftRes; rewrite Hm; reflexivity].
  erewrite bind_run; [|exact Hns].
  eexists. reflexivity.
Qed.

(** C8. Map generation is a function of width, height and seed alone; on
    every grid of at least 7 by 7 tiles it returns a full grid whose 7 by 7
    centre block is Grass, for every seed. Genesis always returns, its
    terrain is [generateMap] of the 50 by 40 dimensions and of its seed,
    whatever the random draws, the clock and the name are, and the centre
    block of that terrain is Grass. *)
Theorem generateMap_center_is_grass :
  (forall w h sd,
      7 <= w <= 4294967295 -> 7 <= h <= 4294967295 ->
      exists m, generateMap w h sd = Ok m /\ grid w h m /\
                forall xx yy, inCenter w h xx yy -> grassAt m yy xx)
  /\
  (forall e name seedInput,
      exists s, genesis e name seedInput = Ok s /\
                (forall sd, seedInput = Some sd -> seed s = sd) /\
                generateMap MAP_WIDTH MAP_HEIGHT (seed s) = Ok (gs_map s) /\
                forall xx yy, 22 <= xx <= 28 -> 17 <= yy <= 23 ->
                              grassAt (gs_map s) yy xx).
Proof.
  split.
  - intros w h sd Hw Hh.
    destruct (generateMap_ok w h sd Hw Hh) as (m & Hm & Hg & Hc).
    exists m. split; [exact Hm|]. split; [exact Hg|].
    intros xx yy [Hx Hy]. apply Hc; assumption.
  - intros e name seedInput.
    destruct (genesis_total e name seedInput) as [s Hs]. exists s.
    destruct (genesis_state _ _ _ _ Hs) as (_ & _ & _ & Hmap & Hseed).
    split; [exact Hs|]. split; [exact Hseed|]. split; [exact Hmap|].
    intros xx yy Hx Hy.
    destruct (generateMap_ok MAP_WIDTH MAP_HEIGHT (seed s)) as (m & Hm & _ & Hc);
      [unfold MAP_WIDTH; lia | unfold MAP_HEIGHT; lia |].
    rewrite Hm in Hmap. injection Hmap as <-.
    apply Hc; unfold MAP_WIDTH, MAP_HEIGHT;
      change (50 `div` 2) with 25; change (40 `div` 2) with 20; lia.
Qed.

Lemma generateMap_center_is_grass_witness :
  exists m, generateMap 50 40 42 = Ok m /\ grid 50 40 m /\
            forall xx yy, inCenter 50 40 xx yy -> grassAt m yy xx.
Proof.
  apply (proj1 generateMap_center_is_grass 50 40 42); lia.
Defined.

(** ** Construction requests (C3, C4) *)

Lemma outOfBounds_spec xx yy :
  (xx <? 0) || (xx >=? MAP_WIDTH) || (yy <? 0) || (yy >=? MAP_HEIGHT) = true
  <-> outOfBounds xx yy.
Proof. unfold outOfBounds. rewrite !orb_true_iff. lia. Qed.

Lemma occupied_spec s xx yy :
  existsb (atPos xx yy) (buildings s) = true <-> occupied s xx yy.
Proof.
  unfold occupied. rewrite existsb_exists. split.
  - intros (b & Hin & Hb). exists b. split; [now apply list_elem_of_In|].
    unfold atPos in Hb. destruct (bld_pos b) as [bx by']. simpl in Hb.
    f_equal; lia.
  - intros (b & Hin & Hb). exists b. split; [now apply list_elem_of_In|].
    unfold atPos. rewrite Hb. simpl. lia.
Qed.

Lemma unbuildable_spec tile :
  isTile tile WATER || isTile tile MOUNTAIN = true <-> unbuildable tile.
Proof.
  unfold unbuildable, isTile, TileType_eqb.
  destruct tile as [[]|]; simpl; split; intros H;
    try discriminate; try reflexivity; try tauto;
    destruct H as [H|H]; discriminate.
Qed.

Lemma insufficient_spec s kind :
  let cost := BUILDING_COSTS kind in
  let res := resources s in
  (truthy (cost WOOD) && (wood res <? amount (cost WOOD)))
  || (truthy (cost STONE) && (stone res <? amount (cost STONE)))
  || (truthy (cost FOOD) && (food res <? amount (cost FOOD))) = true
  <-> insufficient s kind.
Proof.
  unfold insufficient. split.
  - intros H. apply orb_true_iff in H as [H|H];
      [apply orb_true_iff in H as [H|H]|];
      apply andb_true_iff in H as [Ht Hlt].
    + exists WOOD. destruct (BUILDING_COSTS kind WOOD) as [c|]; [|discriminate].
      exists c. simpl in *. split; [reflexivity | lia].
    + exists STONE. destruct (BUILDING_COSTS kind STONE) as [c|]; [|discriminate].
      exists c. simpl in *. split; [reflexivity | lia].
    + exists FOOD. destruct (BUILDING_COSTS kind FOOD) as [c|]; [|discriminate].
      exists c. simpl in *. split; [reflexivity | lia].
  - intros (k & c & Hc & Hlt).
    destruct kind, k; simpl in *; simplify_eq;
      rewrite ?orb_true_iff, ?andb_true_iff; simpl; lia.
Qed.

Lemma placeBuilding_checks e s xx yy kind tile :
  ~ outOfBounds xx yy -> ~ occupied s xx yy ->
  readTile (gs_map s) yy xx = Ok tile ->
  (placeBuilding e s xx yy kind = Ok None
   <-> unbuildable tile \/ insufficient s kind)
  /\ (~ unbuildable tile -> ~ insufficient s kind ->
      exists s', placeBuilding e s xx yy kind = Ok (Some s')).
Proof.
  intros Hb Ho Ht. unfold placeBuilding.
  destruct (_ || _ || _ || _) eqn:Eb; [apply outOfBounds_spec in Eb; tauto|].
  destruct (existsb _ _) eqn:Eo; [apply occupied_spec in Eo; tauto|].
  rewrite Ht.
  destruct (isTile tile WATER || isTile tile MOUNTAIN) eqn:Et.
  { apply unbuildable_spec in Et. split; [tauto | tauto]. }
  assert (Hnt : ~ unbuildable tile)
    by (rewrite <- unbuildable_spec, Et; discriminate).
  pose proof (insufficient_spec s kind) as Hi. cbv zeta in Hi.
  destruct (truthy _ && _) eqn:E1.
  { split; [|intros _ Hn; exfalso; apply Hn, Hi; reflexivity].
    split; [intros _; right; apply Hi; reflexivity | reflexivity]. }
  destruct (truthy _ && _) eqn:E2 in Hi |- *.
  { split; [|intros _ Hn; exfalso; apply Hn, Hi; reflexivity].
    split; [intros _; right; apply Hi; reflexivity | reflexivity]. }
  destruct (truthy _ && _) eqn:E3 in Hi |- *.
  { split; [|intros _ Hn; exfalso; apply Hn, Hi; reflexivity].
    split; [intros _; right; apply Hi; reflexivity | reflexivity]. }
  simpl in Hi. split; [|eauto].
  split; [discriminate|]. intros [H|H]; [tauto|].
  apply Hi in H. discriminate.
Qed.

(** C3. A construction request on a Water or Mountain tile is rejected,
    whatever the structure kind and the balances. The checks run in the
    order bounds, collision, terrain, cost, and the first failure decides:
    out of bounds is rejected without a look at the rest, an occupied tile
    without a look at the terrain, and past those the request is rejected
    exactly when the tile is Water or Mountain or a cost is not covered. A
    rejection returns no state, and the caller keeps the state (and the
    build mode) it had. *)
Theorem placeBuilding_rejections e s xx yy kind :
  (forall t, readTile (gs_map s) yy xx = Ok (Some t) ->
             t = WATER \/ t = MOUNTAIN ->
             placeBuilding e s xx yy kind = Ok None)
  /\ (outOfBounds xx yy -> placeBuilding e s xx yy kind = Ok None)
  /\ (~ outOfBounds xx yy -> occupied s xx yy ->
      placeBuilding e s xx yy kind = Ok None)
  /\ (forall tile,
         ~ outOfBounds xx yy -> ~ occupied s xx yy ->
         readTile (gs_map s) yy xx = Ok tile ->
         (placeBuilding e s xx yy kind = Ok None
          <-> unbuildable tile \/ insufficient s kind))
  /\ (placeBuilding e s xx yy kind = Ok None ->
      handlePlaceBuilding e (Some s) (Some kind) xx yy
      = Ok (Some s, Some kind)).
Proof.
  assert (Hoob : outOfBounds xx yy -> placeBuilding e s xx yy kind = Ok None).
  { intros H. apply outOfBounds_spec in H. unfold placeBuilding.
    now rewrite H. }
  assert (Hocc : ~ outOfBounds xx yy -> occupied s xx yy ->
                 placeBuilding e s xx yy kind = Ok None).
  { intros Hb H. apply occupied_spec in H. unfold placeBuilding.
    destruct (_ || _ || _ || _); [reflexivity|]. now rewrite H. }
  split; [|split; [exact Hoob|split; [exact Hocc|split]]].
  - intros t Ht Hwm.
    destruct ((xx <? 0) || (xx >=? MAP_WIDTH) || (yy <? 0)
              || (yy >=? MAP_HEIGHT)) eqn:Eb;
      [apply Hoob, outOfBounds_spec, Eb|].
    assert (Hb : ~ outOfBounds xx yy)
      by (rewrite <- outOfBounds_spec, Eb; discriminate).
    destruct (existsb (atPos xx yy) (buildings s)) eqn:Eo;
      [apply Hocc, occupied_spec, Eo; exact Hb|].
    assert (Ho : ~ occupied s xx yy)
      by (rewrite <- occupied_spec, Eo; discriminate).
    apply (placeBuilding_checks e s xx yy kind (Some t) Hb Ho Ht).
    left. unfold unbuildable. destruct Hwm as [->| ->]; tauto.
  - intros tile Hb Ho Ht.
    apply (placeBuilding_checks e s xx yy kind tile Hb Ho Ht).
  - intros H. unfold handlePlaceBuilding. now rewrite H.
Qed.

Lemma placeBuilding_rejections_witness :
  placeBuilding (constEnv 0)
    (tinyState [[GRASS; WATER; MOUNTAIN]] (mkResources 1000 1000 1000 0))
    1 0 HOUSE = Ok None.
Proof.
  apply (proj1 (placeBuilding_rejections _ _ 1 0 HOUSE) WATER);
    [reflexivity | left; reflexivity].
Defined.

Lemma Base_is_free s : ~ insufficient s BASE.
Proof. intros (k & c & Hc & _). destruct k; discriminate. Qed.

(** C4, as the code has it. The cost table holds nothing for Base, so no
    cost check applies to it: on every in-bounds, unoccupied tile that is
    neither Water nor Mountain a Base request is accepted, costs nothing and
    appends a second Base building. *)
Theorem placeBuilding_Base_is_accepted e s xx yy tile :
  ~ outOfBounds xx yy -> ~ occupied s xx yy ->
  readTile (gs_map s) yy xx = Ok tile -> ~ unbuildable tile ->
  exists s' b,
    placeBuilding e s xx yy BASE = Ok (Some s') /\
    resources s' = resources s /\
    buildings s' = (buildings s ++ [b])%list /\
    structureType b = BASE /\ bld_pos b = mkPosition xx yy.
Proof.
  intros Hb Ho Ht Hu.
  destruct (placeBuilding_checks e s xx yy BASE tile Hb Ho Ht) as [_ Hok].
  destruct (Hok Hu (Base_is_free s)) as [s' Hs']. exists s'.
  destruct (placeBuilding_Some _ _ _ _ _ _ Hs')
    as (_ & Hres & _ & _ & b & Hbs & Hpos & Hk & _).
  exists b. split; [exact Hs'|]. split; [|tauto].
  pose proof (Hres WOOD) as Hw. pose proof (Hres STONE) as Hst.
  pose proof (Hres FOOD) as Hf. pose proof (Hres FATE) as Hfa.
  simpl in *. destruct (resources s'), (resources s). simpl in *.
  f_equal; lia.
Qed.

Lemma placeBuilding_Base_is_accepted_witness :
  exists s' b,
    placeBuilding (constEnv 0)
      (tinyState [[GRASS; WATER; MOUNTAIN]] (mkResources 0 0 0 0)) 0 0 BASE
    = Ok (Some s') /\
    resources s' = mkResources 0 0 0 0 /\
    buildings s' = [b] /\
    structureType b = BASE /\ bld_pos b = mkPosition 0 0.
Proof.
  apply (placeBuilding_Base_is_accepted (constEnv 0)
           (tinyState [[GRASS; WATER; MOUNTAIN]] (mkResources 0 0 0 0))
           0 0 (Some GRASS)).
  - unfold outOfBounds, MAP_WIDTH, MAP_HEIGHT. lia.
  - intros (b & Hin & _). simpl in Hin. inversion Hin.
  - reflexivity.
  - intros [H|H]; discriminate.
Defined.

(** A second Base is one request away from genesis. *)
Example second_Base_is_reachable :
  exists s,
    history (constEnv 0.6) "Ironhold" (Some 42)
      [Place (constEnv 0.6) 24 20 BASE] = Some s /\
    (structureType <$> buildings s) = [BASE; BASE] /\
    resources s = mkResources 0 0 20 0.
Proof.
  assert (Hobs :
            (fun s => (structureType <$> buildings s, resources s))
              <$> history (constEnv 0.6) "Ironhold" (Some 42)
                    [Place (constEnv 0.6) 24 20 BASE]
            = Some ([BASE; BASE], mkResources 0 0 20 0))
    by (vm_compute; reflexivity).
  destruct (history _ _ _ _) as [s|]; [|discriminate Hobs].
  simpl in Hobs. injection Hobs as Hb Hr. exists s. tauto.
Qed.

(** ** Movement (C6) *)

(** The agents after a tick are the results of the callback, in order. *)
Lemma updateGameState_npcs e s s' :
  updateGameState e s = Ok s' ->
  exists s1 c1 s2 c2,
    mapM updateNpc (npcs s) e s1 c1 = Ok (npcs s', s2, c2).
Proof.
  intros H. unfold updateGameState in H.
  destruct (updateGameStateM e s 0%nat) as [[[u s0] c0]|] eqn:Hrun;
    [|discriminate].
  injection H as ->. unfold updateGameStateM in Hrun.
  apply bind_Ok in Hrun as (u1 & w1 & c1 & H1 & Hrun). run_inv H1.
  apply bind_Ok in Hrun as (u2 & w2 & c2 & H2 & Hrun).
  apply readonly_npcs_updateWeather in H2. simpl in H2.
  apply bind_Ok in Hrun as (w3 & w3' & c3 & H3 & Hrun). run_inv H3.
  apply bind_Ok in Hrun as (u4 & w4 & c4 & H4 & Hrun).
  assert (Hn4 : npcs w4 = npcs s).
  { destruct (Z.rem (tickCount w3') 100 =? 0); run_inv H4; exact H2. }
  apply bind_Ok in Hrun as (w5 & w5' & c5 & H5 & Hrun). run_inv H5.
  apply bind_Ok in Hrun as (ns & w6 & c6 & H6 & Hrun).
  apply bind_Ok in Hrun as (u7 & w7 & c7 & H7 & Hrun). run_inv H7.
  apply readonly_npcs_randomEvents in Hrun. simpl in Hrun.
  rewrite Hrun. rewrite Hn4 in H6. eauto 10.
Qed.

Lemma updateGameState_npc e s s' i npc :
  updateGameState e s = Ok s' -> npcs s !! i = Some npc ->
  exists s1 c1 npc' s2 c2,
    updateNpc npc e s1 c1 = Ok (npc', s2, c2) /\ npcs s' !! i = Some npc'.
Proof.
  intros H Hi. apply updateGameState_npcs in H as (s1 & c1 & s2 & c2 & H).
  eapply mapM_lookup in H as (w1 & k1 & b & w2 & k2 & Hb & Hl); [|exact Hi].
  eauto 10.
Qed.

Lemma updateNpc_moving npc t e s c :
  state npc = MOVING -> targetPos npc = Some t ->
  1 < distance (npc_pos npc) t ->
  updateNpc npc e s c = Ok (npc_with_pos npc (moveTowards npc t), s, c).
Proof.
  intros Hst Ht Hd. unfold updateNpc. rewrite Hst.
  unfold movingNpc. rewrite Ht.
  destruct (Z.leb_spec (distance (npc_pos npc) t) 1) as [Hle|_]; [lia|].
  reflexivity.
Qed.

Lemma moveTowards_step npc t :
  1 < distance (npc_pos npc) t ->
  let dx := pos_x t - pos_x (npc_pos npc) in
  let dy := pos_y t - pos_y (npc_pos npc) in
  (Z.abs dy < Z.abs dx ->
   moveTowards npc t
   = mkPosition (pos_x (npc_pos npc) + Z.sgn dx) (pos_y (npc_pos npc))
   /\ Z.abs (Z.sgn dx) = 1)
  /\ (Z.abs dx <= Z.abs dy ->
      moveTowards npc t
      = mkPosition (pos_x (npc_pos npc)) (pos_y (npc_pos npc) + Z.sgn dy)
      /\ Z.abs (Z.sgn dy) = 1)
  /\ distance (moveTowards npc t) t = distance (npc_pos npc) t - 1.
Proof.
  intros Hd. cbv zeta. unfold distance, moveTowards, Math_sign in *.
  destruct (npc_pos npc) as [px py], t as [tx ty]. simpl in *.
  destruct (Z.gtb_spec (Z.abs (tx - px)) (Z.abs (ty - py))) as [Hgt|Hle];
    simpl; repeat split; intros; try lia.
Qed.

(** C6, amended: ties step along the y-axis. The turn of a Moving agent
    whose Manhattan distance to its target exceeds 1 always returns, leaves
    the state alone and changes only the agent's position, to
    [moveTowards]: exactly 1 along one axis and toward the target, along x
    when [|dx| > |dy|], along y when [|dx| <= |dy|], ties included, the
    other coordinate unchanged and the distance to the target 1 less. After
    a tick that is the agent at its index, and a tick of a reachable state
    always returns. *)
Theorem moving_agent_steps_along_larger_axis e s npc t :
  state npc = MOVING -> targetPos npc = Some t ->
  1 < distance (npc_pos npc) t ->
  let dx := pos_x t - pos_x (npc_pos npc) in
  let dy := pos_y t - pos_y (npc_pos npc) in
  let npc' := npc_with_pos npc (moveTowards npc t) in
  (forall c, updateNpc npc e s c = Ok (npc', s, c))
  /\ (forall s' i, updateGameState e s = Ok s' -> npcs s !! i = Some npc ->
                   npcs s' !! i = Some npc')
  /\ (forall i, reachable s -> npcs s !! i = Some npc ->
                exists s', updateGameState e s = Ok s'
                           /\ npcs s' !! i = Some npc')
  /\ (Z.abs dy < Z.abs dx ->
      npc_pos npc'
      = mkPosition (pos_x (npc_pos npc) + Z.sgn dx) (pos_y (npc_pos npc))
      /\ Z.abs (Z.sgn dx) = 1)
  /\ (Z.abs dx <= Z.abs dy ->
      npc_pos npc'
      = mkPosition (pos_x (npc_pos npc)) (pos_y (npc_pos npc) + Z.sgn dy)
      /\ Z.abs (Z.sgn dy) = 1)
  /\ distance (npc_pos npc') t = distance (npc_pos npc) t - 1.
Proof.
  intros Hst Ht Hd dx dy npc'.
  assert (Htick : forall s' i,
             updateGameState e s = Ok s' -> npcs s !! i = Some npc ->
             npcs s' !! i = Some npc').
  { intros s' i H Hi.
    destruct (updateGameState_npc _ _ _ _ _ H Hi)
      as (s1 & c1 & npc1 & s2 & c2 & Hrun & Hl).
    rewrite (updateNpc_moving npc t e s1 c1 Hst Ht Hd) in Hrun.
    injection Hrun as <- _ _. exact Hl. }
  split; [intros c; now apply updateNpc_moving|].
  split; [exact Htick|].
  split; [|apply moveTowards_step; exact Hd].
  intros i Hreach Hi.
  destruct (proj1 (reachable_calls_return s Hreach) e) as [s' Hs'].
  exists s'. split; [exact Hs' | now apply Htick].
Qed.

Lemma moving_agent_steps_along_larger_axis_witness :
  exists s',
    updateGameState (constEnv 0.6)
      (withNpcs (tinyState [[GRASS; GRASS; GRASS]] (mkResources 0 0 20 0))
         [agent (mkPosition 0 0) MOVING (Some (mkPosition 2 2)) WORKER 0])
    = Ok s' /\
    npcs s' !! 0%nat
    = Some (npc_with_pos
              (agent (mkPosition 0 0) MOVING (Some (mkPosition 2 2)) WORKER 0)
              (mkPosition 0 1)).
Proof.
  eexists. split; [vm_compute; reflexivity|].
  apply (proj1 (proj2 (moving_agent_steps_along_larger_axis (constEnv 0.6)
                         (withNpcs (tinyState [[GRASS; GRASS; GRASS]]
                                      (mkResources 0 0 20 0))
                            [agent (mkPosition 0 0) MOVING
                                   (Some (mkPosition 2 2)) WORKER 0])
                         (agent (mkPosition 0 0) MOVING
                                (Some (mkPosition 2 2)) WORKER 0)
                         (mkPosition 2 2) eq_refl eq_refl
                         ltac:(vm_compute; reflexivity)))).
  - vm_compute. reflexivity.
  - reflexivity.
Defined.

(** C6 as worded fails: from (0,0) toward (2,2) the agent steps to (0,1). *)
Lemma ties_do_not_step_along_x : ~ ties_step_along_x.
Proof.
  intros Hclaim.
  pose (walker := agent (mkPosition 0 0) MOVING (Some (mkPosition 2 2))
                        WORKER 0).
  pose (st := withNpcs (tinyState [[GRASS; GRASS; GRASS]]
                          (mkResources 0 0 20 0)) [walker]).
  destruct (Hclaim (constEnv 0.6) st
              (withNpcs (gs_with_tickCount st 1)
                 [npc_with_pos walker (mkPosition 0 1)])
              0%nat walker (mkPosition 2 2))
    as (npc' & Hl & Hp);
    [vm_compute; reflexivity | reflexivity | reflexivity | reflexivity
    | vm_compute; reflexivity | reflexivity |].
  simpl in Hl. injection Hl as <-. discriminate Hp.
Qed.

(** ** Cycling roles (C9) *)

(** C9. Cycle Role on the selected agent sets its role to the next one of
    Worker, Builder, Farmer, Guard, and to Worker when its role is not one
    of the four (Explorer: the lookup misses with -1 and the next index is
    0); it sets its state to Idle and clears its target, changes nothing
    else of it and leaves the other agents alone. So the role it leaves is
    always one of the four. *)
Theorem cycleRole_lands_in_cycle e s id i n :
  selected s = Some id ->
  findIndex (fun n => String.eqb (npc_id n) id) (npcs s) = Some i ->
  npcs s !! i = Some n ->
  exists s' n',
    handleAction e "CYCLE_ROLE" s = Ok s' /\
    npcs s' !! i = Some n' /\
    (role n = EXPLORER -> role n' = WORKER) /\
    (role n ∉ roles -> role n' = WORKER) /\
    role n' ∈ roles /\
    role n' = match role n with
              | WORKER => BUILDER
              | BUILDER => FARMER
              | FARMER => GUARD
              | GUARD => WORKER
              | EXPLORER => WORKER
              end /\
    state n' = IDLE /\ targetPos n' = None /\
    n' = npc_with_targetPos (npc_with_state (npc_with_role n (role n')) IDLE)
                            None /\
    (forall j, j <> i -> npcs s' !! j = npcs s !! j) /\
    resources s' = resources s /\ buildings s' = buildings s /\
    gs_map s' = gs_map s.
Proof.
  intros Hsel Hfind Hn.
  unfold handleAction, handleActionM.
  change (String.eqb "CYCLE_ROLE" "BLESS") with false.
  change (String.eqb "CYCLE_ROLE" "CYCLE_ROLE") with true. cbv iota.
  unfold cycleRole. unfold bind at 1. unfold get at 1.
  rewrite Hsel, Hfind, Hn, next_role.
  eexists _, _. split; [reflexivity|]. simpl.
  split; [rewrite list_lookup_alter_eq, Hn; reflexivity|]. simpl.
  split; [now intros ->|].
  split.
  { intros Hnot. destruct (role n); try reflexivity;
      exfalso; apply Hnot, list_elem_of_In; simpl; tauto. }
  split; [destruct (role n); apply list_elem_of_In; simpl; tauto|].
  repeat split.
  intros j Hj. apply list_lookup_alter_ne. congruence.
Qed.

Lemma cycleRole_lands_in_cycle_witness :
  exists s' n',
    handleAction (constEnv 0) "CYCLE_ROLE"
      (handleEntitySelect
         (withNpcs (tinyState [[GRASS; GRASS; GRASS]] (mkResources 0 0 20 0))
            [agent (mkPosition 0 0) MOVING (Some (mkPosition 2 0)) EXPLORER 0])
         (Some "npc_0_0"))
    = Ok s' /\
    npcs s' !! 0%nat = Some n' /\ role n' = WORKER /\ state n' = IDLE /\
    targetPos n' = None.
Proof.
  destruct (cycleRole_lands_in_cycle (constEnv 0)
              (handleEntitySelect
                 (withNpcs (tinyState [[GRASS; GRASS; GRASS]]
                              (mkResources 0 0 20 0))
                    [agent (mkPosition 0 0) MOVING (Some (mkPosition 2 0))
                           EXPLORER 0])
                 (Some "npc_0_0"))
              "npc_0_0" 0%nat
              (agent (mkPosition 0 0) MOVING (Some (mkPosition 2 0)) EXPLORER 0))
    as (s' & n' & Hs & Hl & Hex & _ & _ & _ & Hst & Ht & _);
    [reflexivity | reflexivity | reflexivity |].
  exists s', n'. repeat split; try assumption. apply Hex. reflexivity.
Defined.

(** ** Gathering on a spent tile (C10) *)

Lemma isTile_false tile t : tile <> Some t -> isTile tile t = false.
Proof.
  intros H. unfold isTile, TileType_eqb. destruct tile as [t'|]; [|reflexivity].
  apply bool_decide_eq_false_2. congruence.
Qed.

(** C10. When the action timer of a Gathering agent expires and the tile at
    its target is neither Forest nor Mountain, its turn changes no resource
    count, no tile and no building; the agent becomes Idle and its target is
    cleared. The turn draws one random number and, when that is below 0.1,
    logs a yield of nothing. *)
Theorem gathering_on_other_tile_yields_nothing e s c npc t tile :
  state npc = GATHERING -> actionTimer npc - 1 <= 0 ->
  targetPos npc = Some t ->
  readTile (gs_map s) (pos_y t) (pos_x t) = Ok tile ->
  tile <> Some FOREST -> tile <> Some MOUNTAIN ->
  exists npc' s',
    updateNpc npc e s c = Ok (npc', s', S c) /\
    resources s' = resources s /\ gs_map s' = gs_map s /\
    buildings s' = buildings s /\
    state npc' = IDLE /\ targetPos npc' = None /\
    npc' = npc_with_targetPos
             (npc_with_state
                (npc_with_actionTimer npc (actionTimer npc - 1)) IDLE) None /\
    (if Qltb (rnd e c) 0.1
     then exists entry, logs s' = entry :: logs s
     else s' = s).
Proof.
  intros Hst Htimer Ht Hread Hf Hm.
  unfold updateNpc. rewrite Hst. unfold gatheringNpc. simpl.
  destruct (Z.leb_spec (actionTimer npc - 1) 0) as [_|Hgt]; [|lia].
  rewrite Ht. unfold gatherYield, bind, get, liftRes. rewrite Hread.
  rewrite (isTile_false _ _ Hf), (isTile_false _ _ Hm).
  unfold ret, random. simpl. rewrite orb_false_r.
  destruct (Qltb (rnd e c) 0.1).
  - unfold Date_now, unshiftLog, bind, toLocaleTimeString, modify. simpl.
    eexists _, _. repeat split. eexists. reflexivity.
  - eexists _, _. repeat split.
Qed.

Lemma gathering_on_other_tile_yields_nothing_witness :
  exists npc' s',
    updateNpc (agent (mkPosition 0 0) GATHERING (Some (mkPosition 1 0))
                     WORKER 1)
      (constEnv 0.6)
      (tinyState [[GRASS; GRASS; GRASS]] (mkResources 5 0 20 0)) 0%nat
    = Ok (npc', s', 1%nat) /\
    resources s' = mkResources 5 0 20 0 /\
    gs_map s' = [[GRASS; GRASS; GRASS]] /\
    state npc' = IDLE /\ targetPos npc' = None.
Proof.
  destruct (gathering_on_other_tile_yields_nothing (constEnv 0.6)
              (tinyState [[GRASS; GRASS; GRASS]] (mkResources 5 0 20 0)) 0%nat
              (agent (mkPosition 0 0) GATHERING (Some (mkPosition 1 0))
                     WORKER 1)
              (mkPosition 1 0) (Some GRASS))
    as (npc' & s' & Hrun & Hres & Hmap & _ & Hst & Ht & _);
    [reflexivity | simpl; lia | reflexivity | reflexivity
    | discriminate | discriminate |].
  exists npc', s'. repeat split; assumption.
Defined.

(** Two agents finish on the same tree in one tick: the first takes the
    wood and fells the tree, the second finds Grass and takes nothing. *)
Example second_gatherer_finds_grass :
  let lumberjack := agent (mkPosition 0 0) GATHERING (Some (mkPosition 1 0))
                          WORKER 1 in
  exists s',
    updateGameState (constEnv 0.6)
      (withNpcs (tinyState [[GRASS; FOREST; GRASS]] (mkResources 0 0 20 0))
         [lumberjack; lumberjack])
    = Ok s' /\
    resources s' = mkResources 5 0 20 0 /\
    gs_map s' = [[GRASS; GRASS; GRASS]] /\
    (state <$> npcs s') = [IDLE; IDLE] /\
    (targetPos <$> npcs s') = [None; None].
Proof. eexists. split; [vm_compute; reflexivity|]. repeat split. Qed.

(** ** The idle worker (C7) *)

Lemma floorMul_range r n :
  (0 <= r)%Q -> (r < 1)%Q -> 0 < n -> 0 <= floorMul r n < n.
Proof.
  intros H0 H1 Hn. unfold floorMul.
  assert (Hlo : (0 <= r * inject_Z n)%Q).
  { destruct r as [a b]. unfold Qle, Qmult, inject_Z in *. simpl in *. nia. }
  assert (Hhi : (r * inject_Z n < inject_Z n)%Q).
  { destruct r as [a b]. unfold Qlt, Qmult, inject_Z in *. simpl in *.
    rewrite Pos.mul_1_r. nia. }
  split.
  - change 0 with (Qfloor 0). now apply Qfloor_resp_le.
  - pose proof (Qfloor_le (r * inject_Z n)) as Hf.
    rewrite Zlt_Qlt. eapply Qle_lt_trans; eassumption.
Qed.

(** [Math.floor(Math.random() * 5) - 2] is one of -2, -1, 0, 1, 2. *)
Lemma wander_offset r : unitDraw r -> -2 <= floorMul r 5 - 2 <= 2.
Proof.
  intros [H0 H1]. pose proof (floorMul_range r 5 H0 H1 ltac:(lia)). lia.
Qed.

Lemma idleWorker_no_pickaxe npc e s c :
  pickaxe (equipment npc) = false -> wood (resources s) < 10 ->
  idleWorker npc e s c =
    match findNearestTile (gs_map s) (npc_pos npc) FOREST with
    | Some target => Ok (goTo npc target, s, c)
    | None =>
        match wander (npc_pos npc) e s c with
        | Ok (t, s', c') => Ok (goTo npc t, s', c')
        | Throw x => Throw x
        end
    end.
Proof.
  intros Hp Hw. unfold idleWorker, bind, get. rewrite Hp. simpl.
  destruct (Z.geb_spec (wood (resources s)) 10) as [Hge|_]; [lia|].
  unfold ret. destruct (findNearestTile _ _ _); reflexivity.
Qed.

(** The callback of an Idle Worker: the thought, then the decision, which
    starts at [afterThought e c] in the stream of draws. *)
Lemma updateNpc_idle_worker npc e s c :
  state npc = IDLE -> role npc = WORKER ->
  exists npc1,
    npc_pos npc1 = npc_pos npc /\ equipment npc1 = equipment npc /\
    updateNpc npc e s c = idleWorker npc1 e s (afterThought e c).
Proof.
  intros Hst Hr. unfold updateNpc. rewrite Hst.
  unfold idleNpc, bind, random, afterThought.
  destruct (Qltb (rnd e c) 0.05); unfold ret, get; simpl; rewrite Hr.
  - exists (npc_with_thought npc (pick FUNNY_MESSAGES (rnd e (S c)))).
    split; [reflexivity|]. split; reflexivity.
  - exists npc. split; [reflexivity|]. split; reflexivity.
Qed.

Lemma idle_worker_decision e s c npc :
  state npc = IDLE -> role npc = WORKER ->
  pickaxe (equipment npc) = false -> wood (resources s) < 10 ->
  exists npc' c' t,
    updateNpc npc e s c = Ok (npc', s, c') /\
    state npc' = MOVING /\ targetPos npc' = Some t /\
    ((exists xx yy, scanned (gs_map s) xx yy
                    /\ tileIs (gs_map s) FOREST xx yy) ->
     scanned (gs_map s) (pos_x t) (pos_y t) /\
     tileIs (gs_map s) FOREST (pos_x t) (pos_y t) /\
     (forall xx yy, scanned (gs_map s) xx yy ->
                    tileIs (gs_map s) FOREST xx yy ->
                    distance (npc_pos npc) t
                    <= distance (npc_pos npc) (mkPosition xx yy))) /\
    ((forall xx yy, scanned (gs_map s) xx yy
                    -> ~ tileIs (gs_map s) FOREST xx yy) ->
     wander (npc_pos npc) e s (afterThought e c) = Ok (t, s, c') /\
     t = mkPosition
           (Z.max 0 (Z.min (MAP_WIDTH - 1)
                       (pos_x (npc_pos npc)
                        + floorMul (rnd e (afterThought e c)) 5 - 2)))
           (Z.max 0 (Z.min (MAP_HEIGHT - 1)
                       (pos_y (npc_pos npc)
                        + floorMul (rnd e (S (afterThought e c))) 5 - 2))) /\
     (unitDraw (rnd e (afterThought e c)) ->
      -2 <= floorMul (rnd e (afterThought e c)) 5 - 2 <= 2) /\
     (unitDraw (rnd e (S (afterThought e c))) ->
      -2 <= floorMul (rnd e (S (afterThought e c))) 5 - 2 <= 2)).
Proof.
  intros Hst Hr Hp Hw.
  destruct (updateNpc_idle_worker npc e s c Hst Hr)
    as (npc1 & Hpos & Heq & ->).
  rewrite idleWorker_no_pickaxe by (rewrite ?Heq; assumption).
  rewrite Hpos.
  pose proof (findNearestTile_spec (gs_map s) (npc_pos npc) FOREST) as Hspec.
  destruct (findNearestTile _ _ _) as [t|].
  - destruct Hspec as (Hsc & Ht & Hmin).
    eexists _, _, t. split; [reflexivity|]. split; [reflexivity|].
    split; [reflexivity|]. split.
    + intros _. split; [exact Hsc|]. split; [exact Ht | exact Hmin].
    + intros Hnone. exfalso. eapply Hnone; eassumption.
  - unfold wander, bind, random, ret.
    eexists _, _, _. split; [reflexivity|]. split; [reflexivity|].
    split; [reflexivity|]. split.
    + intros (xx & yy & Hsc & Ht). exfalso. eapply Hspec; eassumption.
    + intros _. split; [reflexivity|]. split; [reflexivity|].
      split; apply wander_offset.
Qed.

Lemma BaseInv_find s :
  BaseInv s ->
  exists base, find isBase (buildings s) = Some base
               /\ bld_pos base = mkPosition 25 20.
Proof.
  intros [(b & rest & Hb & Hk & Hp) _]. exists b. rewrite Hb. simpl.
  unfold isBase. rewrite bool_decide_eq_true_2 by exact Hk. now split.
Qed.

(** ** The turn of an agent in a tick *)

(** [array.map] runs the callback on the elements before [i], then on the
    [i]-th one, whose result is the [i]-th of the new array. *)
Lemma mapM_take {W A B} (f : A -> M W B) (l : list A) e w c bs w' c' i a :
  mapM f l e w c = Ok (bs, w', c') -> l !! i = Some a ->
  exists bs1 w1 c1 b w2 c2,
    mapM f (take i l) e w c = Ok (bs1, w1, c1) /\
    f a e w1 c1 = Ok (b, w2, c2) /\ bs !! i = Some b.
Proof.
  revert w c bs i. induction l as [|a0 l IH]; intros w c bs i Hrun Hi.
  - discriminate.
  - simpl in Hrun. apply bind_Ok in Hrun as (b0 & w1 & c1 & H0 & Hrun).
    apply bind_Ok in Hrun as (bs' & w2 & c2 & H1 & Hrun).
    unfold ret in Hrun. simplify_eq. destruct i as [|i]; simpl in *.
    + simplify_eq. exists [], w, c, b0, w1, c1.
      split; [reflexivity|]. split; [exact H0 | reflexivity].
    + destruct (IH _ _ _ _ H1 Hi)
        as (bs1 & w3 & c3 & b & w4 & c4 & Ht & Hf & Hl).
      exists (b0 :: bs1), w3, c3, b, w4, c4. split; [|split; assumption].
      rewrite (bind_run _ _ _ _ _ _ _ _ H0).
      rewrite (bind_run _ _ _ _ _ _ _ _ Ht). reflexivity.
Qed.

(** One callback adds at most 5 Wood: the yield of a Forest tile. *)
Lemma gatherYield_wood n t e s c y s' c' :
  gatherYield n t e s c = Ok (y, s', c') ->
  wood (resources s') <= wood (resources s) + 5.
Proof.
  intros H. unfold gatherYield in H. run_inv H; simpl; lia.
Qed.

Lemma updateNpc_wood n e s c b s' c' :
  updateNpc n e s c = Ok (b, s', c') ->
  wood (resources s') <= wood (resources s) + 5.
Proof.
  intros H. unfold updateNpc in H. destruct (state n).
  - apply readonly_idleNpc in H. subst s'. lia.
  - apply readonly_movingNpc in H. subst s'. lia.
  - unfold gatheringNpc in H. run_inv H;
      try (apply gatherYield_wood in Hrun); simpl in *; lia.
  - unfold buildingNpc in H. run_inv H; simpl; lia.
  - run_inv H. lia.
  - run_inv H. lia.
  - unfold craftingNpc in H. run_inv H; simpl; lia.
  - unfold farmingNpc in H. run_inv H; simpl; lia.
Qed.

Lemma mapM_updateNpc_wood l e s c bs s' c' :
  mapM updateNpc l e s c = Ok (bs, s', c') ->
  wood (resources s') <= wood (resources s) + 5 * Z.of_nat (length l).
Proof.
  revert s c bs. induction l as [|a l IH]; intros s c bs Hrun.
  - simpl in Hrun. unfold ret in Hrun. simplify_eq. simpl. lia.
  - simpl in Hrun. apply bind_Ok in Hrun as (b0 & w1 & c1 & H0 & Hrun).
    apply bind_Ok in Hrun as (bs' & w2 & c2 & H1 & Hrun).
    unfold ret in Hrun. simplify_eq.
    apply updateNpc_wood in H0. apply IH in H1. simpl length. lia.
Qed.

(** The part of a tick before the agents changes neither the agents, the
    terrain, the buildings nor the Wood; the agents before [i] then have
    their turns. *)
Lemma beforeTurn_run i e s c u s1 c1 :
  beforeTurn i e s c = Ok (u, s1, c1) ->
  exists s0 c0 bs,
    npcs s0 = npcs s /\ gs_map s0 = gs_map s /\ buildings s0 = buildings s /\
    wood (resources s0) = wood (resources s) /\
    (resources_nonneg (resources s) -> resources_nonneg (resources s0)) /\
    mapM updateNpc (take i (npcs s)) e s0 c0 = Ok (bs, s1, c1).
Proof.
  intros H. unfold beforeTurn in H. run_inv H.
  all: unfold updateWeather in Hrun; run_inv Hrun.
  all: simpl in *.
  all: match goal with
       | H : mapM _ _ _ ?s0 ?c0 = Ok (?bs, _, _) |- _ =>
           exists s0, c0, bs; repeat (split; [reflexivity|]);
           split; [|exact H]
       end.
  all: unfold resources_nonneg; simpl; intuition lia.
Qed.

Lemma turnOf_state e s i s1 c1 :
  turnOf e s i = Ok (s1, c1) ->
  (Inv s -> Inv s1) /\ (BaseInv s -> BaseInv s1) /\
  wood (resources s1) <= wood (resources s) + 5 * Z.of_nat i /\
  (i = 0%nat ->
   gs_map s1 = gs_map s /\ wood (resources s1) = wood (resources s)).
Proof.
  intros H. unfold turnOf in H.
  destruct (beforeTurn i e s 0%nat) as [[[u s1'] c1']|] eqn:Hrun;
    [|discriminate].
  injection H as -> ->.
  apply beforeTurn_run in Hrun
      as (s0 & c0 & bs & Hn & Hm & Hb & Hw & Hr & Hrun).
  split; [|split; [|split]].
  - intros [HI1 HI2].
    eapply (keeps_mapM Inv); [apply keeps_updateNpc| |exact Hrun].
    split; [now apply Hr | now rewrite Hb].
  - intros HB.
    eapply (keeps_mapM BaseInv); [apply keeps_Base_updateNpc| |exact Hrun].
    unfold BaseInv in *. now rewrite Hb, Hm.
  - apply mapM_updateNpc_wood in Hrun. rewrite length_take in Hrun. lia.
  - intros ->. simpl in Hrun. unfold ret in Hrun. simplify_eq. now split.
Qed.

(** In a tick that returns, the callback of the agent at index [i] runs on
    the state and at the position that [turnOf] computes, and its result is
    the agent at index [i] after the tick. *)
Lemma turn_in_tick e s s' i npc :
  updateGameState e s = Ok s' -> npcs s !! i = Some npc ->
  exists s1 c1 npc' s2 c2,
    turnOf e s i = Ok (s1, c1) /\
    updateNpc npc e s1 c1 = Ok (npc', s2, c2) /\ npcs s' !! i = Some npc'.
Proof.
  intros H Hi. unfold updateGameState in H.
  destruct (updateGameStateM e s 0%nat) as [[[u s0] c0]|] eqn:Hrun;
    [|discriminate].
  injection H as ->. unfold updateGameStateM in Hrun.
  apply bind_Ok in Hrun as (u1 & w1 & c1 & H1 & Hrun).
  apply bind_Ok in Hrun as (u2 & w2 & c2 & H2 & Hrun).
  apply bind_Ok in Hrun as (w3 & w3' & c3 & H3 & Hrun).
  apply bind_Ok in Hrun as (u4 & w4 & c4 & H4 & Hrun).
  apply bind_Ok in Hrun as (w5 & w5' & c5 & H5 & Hrun).
  apply bind_Ok in Hrun as (ns & w6 & c6 & H6 & Hrun).
  apply bind_Ok in Hrun as (u7 & w7 & c7 & H7 & Hrun). run_inv H7.
  apply readonly_npcs_randomEvents in Hrun. simpl in Hrun.
  assert (Hn : npcs w5 = npcs s).
  { pose proof H5 as H5'. run_inv H5'.
    pose proof H3 as H3'. run_inv H3'.
    pose proof (readonly_npcs_updateWeather _ _ _ _ _ _ H2) as Hn2.
    pose proof H1 as H1'. run_inv H1'. simpl in Hn2.
    destruct (Z.rem (tickCount w3') 100 =? 0); run_inv H4;
      simpl; congruence. }
  assert (Hi5 : npcs w5 !! i = Some npc) by now rewrite Hn.
  destruct (mapM_take _ _ _ _ _ _ _ _ _ _ H6 Hi5)
    as (bs1 & s1 & k1 & b & s2 & k2 & Ht & Hf & Hl).
  exists s1, k1, b, s2, k2. split; [|split; [exact Hf|now rewrite Hrun]].
  unfold turnOf, beforeTurn.
  rewrite (bind_run _ _ _ _ _ _ _ _ H1).
  rewrite (bind_run _ _ _ _ _ _ _ _ H2).
  rewrite (bind_run _ _ _ _ _ _ _ _ H3).
  rewrite (bind_run _ _ _ _ _ _ _ _ H4).
  rewrite (bind_run _ _ _ _ _ _ _ _ H5).
  rewrite (bind_run _ _ _ _ _ _ _ _ Ht). reflexivity.
Qed.

(** C7, amended. The Wood balance that decides is the one at the agent's
    turn, and on a map without Forest the worker wanders.

    The decision: the callback of an Idle Worker without a pickaxe, on a
    state whose Wood balance is below 10, returns, leaves the state alone
    and sets the agent Moving. If some scanned tile is Forest, the target
    is a Forest tile, a nearest one by Manhattan distance. If none is, the
    target is what [wander] returns for the two draws that follow the
    agent's thought: the agent's position plus [floor(5 r) - 2] on each
    axis, clamped to the map; for a draw in [0, 1) that offset lies between
    -2 and 2.

    In a tick: on a reachable state the tick returns, and the agent at
    index [i] decides on the state [turnOf] computes, the one the agents
    before it in the list have left. Its Wood balance is at most the
    balance at the start of the tick plus 5 for each earlier agent, and for
    the first agent the terrain and the Wood are those of the start of the
    tick. There the Base (the first building of kind Base, the one the code
    looks up) stands at (25, 20) on a tile that is not Forest. When that
    Wood balance is below 10 the agent is set Moving; a Forest target is
    never the position of the Base, nor of any Base that stands on a tile
    other than Forest. *)
Theorem worker_without_pickaxe_targets_nearest_forest :
  (forall e s c npc,
      state npc = IDLE -> role npc = WORKER ->
      pickaxe (equipment npc) = false -> wood (resources s) < 10 ->
      exists npc' c' t,
        updateNpc npc e s c = Ok (npc', s, c') /\
        state npc' = MOVING /\ targetPos npc' = Some t /\
        ((exists xx yy, scanned (gs_map s) xx yy
                        /\ tileIs (gs_map s) FOREST xx yy) ->
         scanned (gs_map s) (pos_x t) (pos_y t) /\
         tileIs (gs_map s) FOREST (pos_x t) (pos_y t) /\
         (forall xx yy, scanned (gs_map s) xx yy ->
                        tileIs (gs_map s) FOREST xx yy ->
                        distance (npc_pos npc) t
                        <= distance (npc_pos npc) (mkPosition xx yy))) /\
        ((forall xx yy, scanned (gs_map s) xx yy
                        -> ~ tileIs (gs_map s) FOREST xx yy) ->
         wander (npc_pos npc) e s (afterThought e c) = Ok (t, s, c') /\
         t = mkPosition
               (Z.max 0 (Z.min (MAP_WIDTH - 1)
                           (pos_x (npc_pos npc)
                            + floorMul (rnd e (afterThought e c)) 5 - 2)))
               (Z.max 0 (Z.min (MAP_HEIGHT - 1)
                           (pos_y (npc_pos npc)
                            + floorMul (rnd e (S (afterThought e c))) 5
                            - 2))) /\
         (unitDraw (rnd e (afterThought e c)) ->
          -2 <= floorMul (rnd e (afterThought e c)) 5 - 2 <= 2) /\
         (unitDraw (rnd e (S (afterThought e c))) ->
          -2 <= floorMul (rnd e (S (afterThought e c))) 5 - 2 <= 2)))
  /\
  (forall e s i npc,
      reachable s -> npcs s !! i = Some npc ->
      state npc = IDLE -> role npc = WORKER ->
      pickaxe (equipment npc) = false ->
      exists s' s1 c1 npc' c2 base,
        updateGameState e s = Ok s' /\
        turnOf e s i = Ok (s1, c1) /\
        updateNpc npc e s1 c1 = Ok (npc', s1, c2) /\
        npcs s' !! i = Some npc' /\
        wood (resources s1) <= wood (resources s) + 5 * Z.of_nat i /\
        (i = 0%nat -> gs_map s1 = gs_map s
                      /\ wood (resources s1) = wood (resources s)) /\
        find isBase (buildings s1) = Some base /\
        bld_pos base = mkPosition 25 20 /\
        ~ tileIs (gs_map s1) FOREST 25 20 /\
        (wood (resources s1) < 10 ->
         exists t,
           state npc' = MOVING /\ targetPos npc' = Some t /\
           ((exists xx yy, scanned (gs_map s1) xx yy
                           /\ tileIs (gs_map s1) FOREST xx yy) ->
            scanned (gs_map s1) (pos_x t) (pos_y t) /\
            tileIs (gs_map s1) FOREST (pos_x t) (pos_y t) /\
            (forall xx yy, scanned (gs_map s1) xx yy ->
                           tileIs (gs_map s1) FOREST xx yy ->
                           distance (npc_pos npc) t
                           <= distance (npc_pos npc) (mkPosition xx yy)) /\
            t <> bld_pos base /\
            (forall b, b ∈ buildings s1 -> structureType b = BASE ->
                       ~ tileIs (gs_map s1) FOREST
                           (pos_x (bld_pos b)) (pos_y (bld_pos b)) ->
                       t <> bld_pos b)) /\
           ((forall xx yy, scanned (gs_map s1) xx yy
                           -> ~ tileIs (gs_map s1) FOREST xx yy) ->
            wander (npc_pos npc) e s1 (afterThought e c1) = Ok (t, s1, c2) /\
            t = mkPosition
                  (Z.max 0 (Z.min (MAP_WIDTH - 1)
                              (pos_x (npc_pos npc)
                               + floorMul (rnd e (afterThought e c1)) 5 - 2)))
                  (Z.max 0 (Z.min (MAP_HEIGHT - 1)
                              (pos_y (npc_pos npc)
                               + floorMul (rnd e (S (afterThought e c1))) 5
                               - 2))) /\
            (unitDraw (rnd e (afterThought e c1)) ->
             -2 <= floorMul (rnd e (afterThought e c1)) 5 - 2 <= 2) /\
            (unitDraw (rnd e (S (afterThought e c1))) ->
             -2 <= floorMul (rnd e (S (afterThought e c1))) 5 - 2 <= 2)))).
Proof.
  split; [exact idle_worker_decision|].
  intros e s i npc Hreach Hi Hst Hr Hp.
  destruct (proj1 (reachable_calls_return s Hreach) e) as [s' Htick].
  destruct (turn_in_tick e s s' i npc Htick Hi)
    as (s1 & c1 & npc' & s2 & c2 & Hturn & Hrun & Hl).
  assert (s2 = s1) as ->.
  { unfold updateNpc in Hrun. rewrite Hst in Hrun.
    eapply readonly_idleNpc. exact Hrun. }
  destruct (turnOf_state e s i s1 c1 Hturn) as (_ & HB & Hwood & Hfirst).
  specialize (HB (reachable_BaseInv s Hreach)).
  destruct (BaseInv_find s1 HB) as (base & Hbase & Hpos).
  exists s', s1, c1, npc', c2, base. split; [exact Htick|].
  split; [exact Hturn|]. split; [exact Hrun|]. split; [exact Hl|].
  split; [exact Hwood|]. split; [exact Hfirst|]. split; [exact Hbase|].
  split; [exact Hpos|]. split; [apply HB|].
  intros Hw.
  destruct (idle_worker_decision e s1 c1 npc Hst Hr Hp Hw)
    as (npc1 & c1' & t & Hrun1 & Hmov & Ht & Hsome & Hnone).
  rewrite Hrun in Hrun1. injection Hrun1 as <- <-.
  exists t. split; [exact Hmov|]. split; [exact Ht|]. split.
  - intros Hforest. destruct (Hsome Hforest) as (Hsc & Htile & Hmin).
    split; [exact Hsc|]. split; [exact Htile|]. split; [exact Hmin|]. split.
    + intros Heq. rewrite Hpos in Heq. subst t. destruct HB as [_ Hno].
      contradiction.
    + intros b _ _ Hno Heq. subst t. contradiction.
  - intros Hno. destruct (Hnone Hno) as (Hwan & Heq & Hx & Hy).
    split; [exact Hwan|]. split; [exact Heq|]. split; assumption.
Qed.

Lemma worker_without_pickaxe_targets_nearest_forest_witness :
  (exists npc' c',
      updateNpc (agent (mkPosition 0 0) IDLE None WORKER 0) (constEnv 0.6)
        (tinyState [[GRASS; GRASS; FOREST]] (mkResources 5 0 20 0)) 0%nat
      = Ok (npc', tinyState [[GRASS; GRASS; FOREST]] (mkResources 5 0 20 0),
            c')
      /\ state npc' = MOVING /\ targetPos npc' = Some (mkPosition 2 0))
  /\
  (exists npc' c',
      updateNpc (agent (mkPosition 0 0) IDLE None WORKER 0) (constEnv 0.6)
        (tinyState [[GRASS; GRASS; GRASS]] (mkResources 5 0 20 0)) 0%nat
      = Ok (npc', tinyState [[GRASS; GRASS; GRASS]] (mkResources 5 0 20 0),
            c')
      /\ state npc' = MOVING /\ targetPos npc' = Some (mkPosition 1 1))
  /\
  (exists g s' npc' t,
      genesis (constEnv 0.6) "Ironhold" (Some 42) = Ok g /\
      updateGameState (constEnv 0.6) g = Ok s' /\
      npcs s' !! 1%nat = Some npc' /\
      state npc' = MOVING /\ targetPos npc' = Some t /\
      t <> mkPosition 25 20).
Proof.
  split; [|split].
  - destruct (proj1 worker_without_pickaxe_targets_nearest_forest
                (constEnv 0.6)
                (tinyState [[GRASS; GRASS; FOREST]] (mkResources 5 0 20 0))
                0%nat (agent (mkPosition 0 0) IDLE None WORKER 0))
      as (npc' & c' & t & Hrun & Hst & Ht & Hforest & _);
      [reflexivity | reflexivity | reflexivity | simpl; lia |].
    exists npc', c'. split; [exact Hrun|]. split; [exact Hst|].
    rewrite Ht. f_equal.
    destruct Hforest as (Hsc & Htile & _).
    { exists 2, 0. split; [unfold scanned; simpl; lia | reflexivity]. }
    destruct Hsc as [Hy Hx]. simpl in Hy, Hx. destruct t as [tx ty].
    simpl in *. assert (ty = 0) by lia. subst ty.
    assert (tx = 0 \/ tx = 1 \/ tx = 2) as [->|[->| ->]] by lia;
      [discriminate Htile | discriminate Htile | reflexivity].
  - destruct (proj1 worker_without_pickaxe_targets_nearest_forest
                (constEnv 0.6)
                (tinyState [[GRASS; GRASS; GRASS]] (mkResources 5 0 20 0))
                0%nat (agent (mkPosition 0 0) IDLE None WORKER 0))
      as (npc' & c' & t & Hrun & Hst & Ht & _ & Hnone);
      [reflexivity | reflexivity | reflexivity | simpl; lia |].
    exists npc', c'. split; [exact Hrun|]. split; [exact Hst|].
    rewrite Ht. f_equal.
    destruct Hnone as (_ & Heq & _).
    { intros xx yy [Hy Hx] Htile. simpl in Hy, Hx.
      assert (yy = 0) by lia. subst yy.
      assert (xx = 0 \/ xx = 1 \/ xx = 2) as [->|[->| ->]] by lia;
        discriminate Htile. }
    rewrite Heq. reflexivity.
  - assert (Hobs :
              match genesis (constEnv 0.6) "Ironhold" (Some 42) with
              | Ok g =>
                  match turnOf (constEnv 0.6) g 1%nat with
                  | Ok (s1, _) =>
                      Some ((fun n => (state n, role n, pickaxe (equipment n)))
                              <$> npcs g !! 1%nat,
                            wood (resources g),
                            length (gs_map s1), rowLength (gs_map s1),
                            readTile (gs_map s1) 20 29)
                  | Throw _ => None
                  end
              | Throw _ => None
              end
              = Some (Some (IDLE, WORKER, false), 0, 40%nat, 50,
                      Ok (Some FOREST)))
      by (vm_compute; reflexivity).
    destruct (genesis (constEnv 0.6) "Ironhold" (Some 42)) as [g|] eqn:Hg;
      [|discriminate Hobs].
    destruct (turnOf (constEnv 0.6) g 1%nat) as [[s0 c0]|] eqn:Hturn0;
      [|discriminate Hobs].
    injection Hobs as Hnpc Hw Hlen Hrow Htile.
    destruct (npcs g !! 1%nat) as [npc|] eqn:Hl; [|discriminate Hnpc].
    simpl in Hnpc. injection Hnpc as Hst Hr Hp.
    destruct (proj2 worker_without_pickaxe_targets_nearest_forest
                (constEnv 0.6) g 1%nat npc)
      as (s' & s1 & c1 & npc' & c2 & base & Htick & Hturn & _ & Hl' & Hwood
          & _ & _ & Hpos & _ & Hdec);
      [eapply reach_genesis; exact Hg | exact Hl | exact Hst | exact Hr
       | exact Hp |].
    rewrite Hturn0 in Hturn. injection Hturn as <- <-.
    destruct Hdec as (t & Hmov & Ht & Hforest & _); [lia|].
    exists g, s', npc', t. split; [reflexivity|]. split; [exact Htick|].
    split; [exact Hl'|]. split; [exact Hmov|]. split; [exact Ht|].
    destruct Hforest as (_ & _ & _ & Hbase & _).
    { exists 29, 20. split; [|exact Htile].
      unfold scanned. rewrite Hlen, Hrow. lia. }
    now rewrite <- Hpos.
Defined.

(** C7 as worded fails on a reachable state. With the seed -100 the
    generator's state stays negative, so every draw falls below 0.05 and
    every tile outside the centre block is Mountain: the colony has no
    Forest. With every genesis draw 0.1 the agents spawn on the Base, and
    with every draw of the first tick 0.5 the wander offset is 0: the
    worker's target is the Base position, a Grass tile. *)
Lemma worker_targets_the_base_on_a_barren_map : ~ worker_always_targets_forest.
Proof.
  intros Hclaim.
  assert (Hobs :
            match genesis (constEnv 0.1) "Barren" (Some (-100)) with
            | Ok g =>
                match updateGameState (constEnv 0.5) g with
                | Ok s' =>
                    Some ((fun n => (state n, role n, pickaxe (equipment n)))
                            <$> npcs g !! 1%nat,
                          wood (resources g),
                          targetPos <$> npcs s' !! 1%nat,
                          readTile (gs_map s') 20 25)
                | Throw _ => None
                end
            | Throw _ => None
            end
            = Some (Some (IDLE, WORKER, false), 0,
                    Some (Some (mkPosition 25 20)), Ok (Some GRASS)))
    by (vm_compute; reflexivity).
  destruct (genesis (constEnv 0.1) "Barren" (Some (-100))) as [g|] eqn:Hg;
    [|discriminate Hobs].
  destruct (updateGameState (constEnv 0.5) g) as [s'|] eqn:Hu;
    [|discriminate Hobs].
  injection Hobs as Hnpc Hwood Htarget Htile.
  destruct (npcs g !! 1%nat) as [npc|] eqn:Hl; [|discriminate Hnpc].
  simpl in Hnpc. injection Hnpc as Hst Hr Hp.
  destruct (Hclaim (constEnv 0.5) g s' 1%nat npc)
    as (npc' & t & Hl' & Ht & Hforest & _);
    try assumption; [eapply reach_genesis; exact Hg | lia |].
  rewrite Hl' in Htarget. simpl in Htarget. rewrite Ht in Htarget.
  injection Htarget as ->. unfold tileIs in Hforest. simpl in Hforest.
  rewrite Htile in Hforest. discriminate Hforest.
Qed.

(** The balance at the start of the tick does not decide. After
    [gathererBeforeWorker] the colony holds 5 Wood and Forest stands at
    (29, 18), before and after the next tick; the agent at index 2 is an
    Idle Worker without a pickaxe. In that tick the agent at index 1 ends
    its gathering first and lifts the balance to 10, so the worker's turn
    finds 10 Wood and the worker is sent to the Base. *)
Lemma earlier_gatherer_sends_worker_to_base :
  exists s s1 c1 s' npc npc',
    history (constEnv 0.6) "Ironhold" (Some 42) gathererBeforeWorker = Some s
    /\ reachable s
    /\ npcs s !! 2%nat = Some npc
    /\ state npc = IDLE /\ role npc = WORKER
    /\ pickaxe (equipment npc) = false
    /\ wood (resources s) = 5
    /\ tileIs (gs_map s) FOREST 29 18
    /\ turnOf (constEnv 0.6) s 2%nat = Ok (s1, c1)
    /\ wood (resources s1) = 10
    /\ updateGameState (constEnv 0.6) s = Ok s'
    /\ npcs s' !! 2%nat = Some npc'
    /\ state npc' = MOVING
    /\ targetPos npc' = Some (mkPosition 25 20)
    /\ tileIs (gs_map s') FOREST 29 18.
Proof.
  assert (Hobs :
            match history (constEnv 0.6) "Ironhold" (Some 42)
                    gathererBeforeWorker with
            | Some s =>
                match turnOf (constEnv 0.6) s 2%nat,
                      updateGameState (constEnv 0.6) s with
                | Ok (s1, _), Ok s' =>
                    Some ((fun n => (state n, role n, pickaxe (equipment n)))
                            <$> npcs s !! 2%nat,
                          wood (resources s),
                          readTile (gs_map s) 18 29,
                          wood (resources s1),
                          (fun n => (state n, targetPos n))
                            <$> npcs s' !! 2%nat,
                          readTile (gs_map s') 18 29)
                | _, _ => None
                end
            | None => None
            end
            = Some (Some (IDLE, WORKER, false), 5, Ok (Some FOREST), 10,
                    Some (MOVING, Some (mkPosition 25 20)),
                    Ok (Some FOREST)))
    by (vm_compute; reflexivity).
  destruct (history (constEnv 0.6) "Ironhold" (Some 42) gathererBeforeWorker)
    as [s|] eqn:Hs; [|discriminate Hobs].
  destruct (turnOf (constEnv 0.6) s 2%nat) as [[s1 c1]|] eqn:Hturn;
    [|discriminate Hobs].
  destruct (updateGameState (constEnv 0.6) s) as [s'|] eqn:Htick;
    [|discriminate Hobs].
  injection Hobs as Hnpc Hw Htile Hw1 Hnpc' Htile'.
  destruct (npcs s !! 2%nat) as [npc|] eqn:Hl; [|discriminate Hnpc].
  destruct (npcs s' !! 2%nat) as [npc'|] eqn:Hl'; [|discriminate Hnpc'].
  simpl in Hnpc, Hnpc'. injection Hnpc as Hst Hr Hp.
  injection Hnpc' as Hst' Ht'.
  exists s, s1, c1, s', npc, npc'. split; [reflexivity|]. split.
  { eapply history_reachable. exact Hs. }
  split; [exact Hl|]. split; [exact Hst|]. split; [exact Hr|].
  split; [exact Hp|]. split; [exact Hw|]. split; [exact Htile|].
  split; [exact Hturn|]. split; [exact Hw1|]. split; [exact Htick|].
  split; [exact Hl'|]. split; [exact Hst'|]. split; [exact Ht'|].
  exact Htile'.
Qed.

(** ** The ledger (C1) *)

Lemma readonly_ledger s k : getRes (resources s) k <= getRes (resources s) k.
Proof. lia. Qed.

Lemma gatherYield_ledger npc t e s c y s' c' :
  gatherYield npc t e s c = Ok (y, s', c') ->
  forall k, getRes (resources s) k <= getRes (resources s') k.
Proof.
  intros H k. unfold gatherYield in H. run_inv H; destruct k; simpl; lia.
Qed.

Lemma updateNpc_ledger npc e s c npc' s' c' :
  updateNpc npc e s c = Ok (npc', s', c') ->
  (forall k, getRes (resources s) k <= getRes (resources s') k)
  \/ (state npc = CRAFTING /\ 10 <= wood (resources s) /\
      resources s' = setRes (resources s) WOOD (wood (resources s) - 10)).
Proof.
  intros H. unfold updateNpc in H. destruct (state npc) eqn:Hst.
  - apply readonly_idleNpc in H. subst. left. intros; lia.
  - apply readonly_movingNpc in H. subst. left. intros; lia.
  - left. unfold gatheringNpc in H. run_inv H;
      try (intros; simpl; lia);
      intros k; simpl; apply (gatherYield_ledger _ _ _ _ _ _ _ _ Hrun k).
  - left. unfold buildingNpc in H. run_inv H; intros; simpl; lia.
  - run_inv H. left. intros; lia.
  - run_inv H. left. intros; lia.
  - unfold craftingNpc in H. run_inv H; try (left; intros; simpl; lia).
    right. simpl in *. split; [reflexivity|]. split; [lia|].
    f_equal; lia.
  - left. unfold farmingNpc in H. run_inv H; intros k; destruct k; simpl; lia.
Qed.

Lemma handleAction_ledger e a s s' :
  handleAction e a s = Ok s' ->
  resources s' = resources s
  \/ (a = "BLESS" /\ 5 <= fate (resources s) /\
      resources s' = setRes (resources s) FATE (fate (resources s) - 5)).
Proof.
  intros H. unfold handleAction in H.
  destruct (handleActionM a e s 0%nat) as [[[u s1] c1]|] eqn:Hrun;
    [|discriminate].
  injection H as <-. unfold handleActionM in Hrun.
  destruct (String.eqb_spec a "BLESS") as [->|_].
  - unfold bless in Hrun. run_inv Hrun; try (now left).
    right. simpl. split; [reflexivity|]. split; [lia|]. f_equal; lia.
  - left. destruct (String.eqb a "CYCLE_ROLE").
    + unfold cycleRole in Hrun. run_inv Hrun; reflexivity.
    + run_inv Hrun. reflexivity.
Qed.

Lemma randomEvents_ledger e s c u s' c' :
  randomEvents e s c = Ok (u, s', c') ->
  resources s' = resources s
  \/ resources s' = setRes (resources s) FOOD
                           (Z.max 0 (food (resources s) - 2)).
Proof.
  intros H. unfold randomEvents in H. run_inv H; try (now left). now right.
Qed.

(** C1. In every reachable state the four counts are non-negative integers.
    Every deduction is exact and guarded: an agent's turn lowers no count,
    except a crafting that takes 10 Wood from a balance of at least 10; an
    accepted construction request takes exactly the table's costs, each
    covered by its balance; an action leaves the ledger alone, except a
    Bless that takes 5 Fate from a balance of at least 5. The random event
    is the only clamp: it leaves the ledger alone or sets Food to
    [max 0 (food - 2)]. *)
Theorem resources_never_negative :
  (forall s, reachable s -> resources_nonneg (resources s))
  /\ (forall npc e s c npc' s' c',
         updateNpc npc e s c = Ok (npc', s', c') ->
         (forall k, getRes (resources s) k <= getRes (resources s') k)
         \/ (state npc = CRAFTING /\ 10 <= wood (resources s) /\
             resources s'
             = setRes (resources s) WOOD (wood (resources s) - 10)))
  /\ (forall e s xx yy kind s',
         placeBuilding e s xx yy kind = Ok (Some s') ->
         (forall k c, BUILDING_COSTS kind k = Some c ->
                      0 < c <= getRes (resources s) k)
         /\ (forall k, getRes (resources s') k
                       = getRes (resources s) k
                         - amount (BUILDING_COSTS kind k)))
  /\ (forall e a s s',
         handleAction e a s = Ok s' ->
         resources s' = resources s
         \/ (a = "BLESS" /\ 5 <= fate (resources s) /\
             resources s'
             = setRes (resources s) FATE (fate (resources s) - 5)))
  /\ (forall e s c u s' c',
         randomEvents e s c = Ok (u, s', c') ->
         resources s' = resources s
         \/ resources s' = setRes (resources s) FOOD
                                  (Z.max 0 (food (resources s) - 2))).
Proof.
  split; [intros s Hs; apply reachable_Inv, Hs|].
  split; [apply updateNpc_ledger|].
  split; [intros e s xx yy kind s' H;
          apply placeBuilding_Some in H as (H1 & H2 & _); now split|].
  split; [apply handleAction_ledger | apply randomEvents_ledger].
Qed.

Lemma resources_never_negative_witness :
  exists s, history (constEnv 0.6) "Ironhold" (Some 42)
              [Tick (constEnv 0.6); Place (constEnv 0.6) 24 20 BASE]
            = Some s
            /\ resources_nonneg (resources s).
Proof.
  assert (Hobs : (fun s => tickCount s)
                   <$> history (constEnv 0.6) "Ironhold" (Some 42)
                         [Tick (constEnv 0.6);
                          Place (constEnv 0.6) 24 20 BASE]
                 = Some 1)
    by (vm_compute; reflexivity).
  destruct (history (constEnv 0.6) "Ironhold" (Some 42)
              [Tick (constEnv 0.6); Place (constEnv 0.6) 24 20 BASE])
    as [s|] eqn:Hs; [|discriminate Hobs].
  exists s. split; [reflexivity|].
  apply (proj1 resources_never_negative s).
  eapply history_reachable. exact Hs.
Defined.

(** ** Buildings (C2) *)

(** The half of C2 that holds: progress is never negative and a building
    is completed exactly when its progress has reached its maximum. *)
Lemma reachable_buildings_ok s :
  reachable s -> Forall building_ok (buildings s).
Proof. intros Hs. apply reachable_Inv, Hs. Qed.

(** C2, as the code has it. Two Builders work one House; the one whose turn
    comes second completes it at 100, the other is still in its
    ConstructingSite state and ten ticks later adds 10 to the completed
    building: the colony reaches a state whose House has progress 110 of
    100. *)
Theorem construction_progress_exceeds_maximum :
  exists s b,
    history (constEnv 0.6) "Ironhold" (Some 42) twoBuilders = Some s /\
    reachable s /\
    buildings s !! 1%nat = Some b /\
    structureType b = HOUSE /\ completed b = true /\
    constructionProgress b = 110 /\ maxConstructionProgress b = 100.
Proof.
  assert (Hobs :
            match history (constEnv 0.6) "Ironhold" (Some 42) twoBuilders with
            | Some s =>
                match buildings s !! 1%nat with
                | Some b => Some (structureType b, completed b,
                                  constructionProgress b,
                                  maxConstructionProgress b)
                | None => None
                end
            | None => None
            end = Some (HOUSE, true, 110, 100))
    by (vm_compute; reflexivity).
  destruct (history (constEnv 0.6) "Ironhold" (Some 42) twoBuilders)
    as [s|] eqn:Hs; [|discriminate Hobs].
  simpl in Hobs.
  destruct (buildings s !! 1%nat) as [b|] eqn:Hb; [|discriminate Hobs].
  simpl in Hobs. injection Hobs as Hk Hc Hp Hm.
  exists s, b. split; [reflexivity|].
  split; [eapply history_reachable; exact Hs|].
  split; [exact Hb|]. repeat split; assumption.
Qed.

(** ** The log (C5) *)

(** C5, as the code has it. Only the weather change cuts the log to 50
    entries; every other writer prepends and leaves the length alone. Fifty
    role changes right after genesis leave 51 entries. *)
Theorem log_exceeds_fifty_entries :
  exists s,
    history (constEnv 0.6) "Ironhold" (Some 42) fiftyRoleChanges = Some s /\
    reachable s /\ length (logs s) = 51%nat.
Proof.
  assert (Hobs :
            (fun s => length (logs s))
              <$> history (constEnv 0.6) "Ironhold" (Some 42) fiftyRoleChanges
            = Some 51%nat)
    by (vm_compute; reflexivity).
  destruct (history (constEnv 0.6) "Ironhold" (Some 42) fiftyRoleChanges)
    as [s|] eqn:Hs; [|discriminate Hobs].
  simpl in Hobs. injection Hobs as Hlen.
  exists s. split; [reflexivity|].
  split; [eapply history_reachable; exact Hs | exact Hlen].
Qed.

(** The one writer that cuts the log: after a weather change at most 50
    entries are left. *)
Lemma weather_change_cuts_log e s c u s' c' :
  updateWeather e s c = Ok (u, s', c') ->
  Z.rem (tickCount s) 500 = 0 ->
  (length (logs s') <= 50)%nat /\ weather s' = nextWeather (weather s).
Proof.
  intros H Ht. unfold updateWeather in H. run_inv H.
  - simpl. split; [|reflexivity]. rewrite length_take. lia.
  - rewrite Ht in Hcond. discriminate Hcond.
Qed.
